(** * Weekly S&P 500 membership reconstruction, top-N mention selection and
      back-test metrics: a shallow embedding and its properties.

    The development follows the three scripts of the repository:
    - [build_sp500_history.py]: parsing of the change table, the descending
      sort of the change log and the backward replay producing one snapshot
      per week;
    - [sentiment_scraper.py]: the configuration constants (the tallying code
      is not part of the sources at hand);
    - [strategy_backtester.py]: [calculate_metrics].

    Dates are day numbers ([Z], the proleptic Gregorian ordinal of
    [datetime.toordinal]); every date of the scripts is a midnight, so day
    resolution loses nothing.  Strings hold ASCII characters (tickers and
    company names), on which [strip], [upper] and the string order below
    agree with Python's. *)

From Stdlib Require Import ZArith QArith Lia.
From Stdlib Require Import Ascii.
From stdpp Require Import gmap strings list sorting.
From Equations Require Import Equations.

Open Scope Z_scope.

(** ** Exceptions *)

Inductive exn := AttributeError | IndexError | ZeroDivisionError.

Inductive res (A : Type) :=
  | Ok (a : A)
  | Raise (e : exn).
Arguments Ok {A} a.
Arguments Raise {A} e.

Definition res_bind {A B} (m : res A) (k : A → res B) : res B :=
  match m with
  | Ok a => k a
  | Raise e => Raise e
  end.

Notation "x ←! m ; k" := (res_bind m (λ x, k))
  (at level 20, m at level 100, k at level 200, right associativity,
   format "x  ←!  m ;  '/' k").
Notation "' p ←! m ; k" := (res_bind m (λ p, k))
  (at level 20, p pattern, m at level 100, k at level 200,
   right associativity, format "' p  ←!  m ;  '/' k").

(** ** Orders given by a three-way comparison

    Python compares tuples lexicographically; the classes below carry the
    comparison of each component and of their products. *)

Class Cmp (A : Type) := cmp : A → A → comparison.
Global Hint Mode Cmp ! : typeclass_instances.

Class CmpSpec (A : Type) `{Cmp A} := {
  cmp_eq_iff (x y : A) : cmp x y = Eq ↔ x = y;
  cmp_opp (x y : A) : cmp y x = CompOpp (cmp x y);
  cmp_lt_trans (x y z : A) : cmp x y = Lt → cmp y z = Lt → cmp x z = Lt
}.
Global Hint Mode CmpSpec ! - : typeclass_instances.

Global Instance Z_cmp : Cmp Z := Z.compare.
Global Instance string_cmp : Cmp string := String.compare.

Global Instance prod_cmp {A B} `{Cmp A, Cmp B} : Cmp (A * B) :=
  λ p q, match cmp p.1 q.1 with
         | Eq => cmp p.2 q.2
         | c => c
         end.

Definition cmp_leb {A} `{Cmp A} (x y : A) : bool :=
  match cmp x y with Gt => false | _ => true end.

Definition cmp_le {A} `{Cmp A} (x y : A) : Prop := cmp_leb x y.

Global Instance cmp_le_dec {A} `{Cmp A} : RelDecision (cmp_le (A:=A)).
Proof. intros x y. unfold cmp_le. apply _. Defined.

(** ** Python string helpers *)

(** [str.isspace] on the characters below 128: tab, line feed, vertical tab,
    form feed, carriage return, the separators 0x1c-0x1f and the blank. *)
Definition isspace (c : ascii) : bool :=
  let n := N_of_ascii c in
  ((9 <=? n) && (n <=? 13) || (28 <=? n) && (n <=? 31) || (n =? 32))%N.

Fixpoint lstrip (s : string) : string :=
  match s with
  | String c s' => if isspace c then lstrip s' else s
  | EmptyString => EmptyString
  end.

Definition rstrip (s : string) : string := String.rev (lstrip (String.rev s)).

Definition strip (s : string) : string := rstrip (lstrip s).

(** [str.upper] on the characters below 128. *)
Definition upper_char (c : ascii) : ascii :=
  let n := N_of_ascii c in
  if ((97 <=? n) && (n <=? 122))%N then ascii_of_N (n - 32) else c.

Fixpoint upper (s : string) : string :=
  match s with
  | String c s' => String (upper_char c) (upper s')
  | EmptyString => EmptyString
  end.

(** [s.split(sep)] for a one-character separator: the pieces between the
    separators, so one piece more than there are separators. *)
Fixpoint split_go (sep : ascii) (cur : string) (s : string) : list string :=
  match s with
  | EmptyString => [String.rev cur]
  | String c s' =>
      if Ascii.eqb c sep then String.rev cur :: split_go sep EmptyString s'
      else split_go sep (String c cur) s'
  end.

Definition split (sep : ascii) (s : string) : list string :=
  split_go sep EmptyString s.

(** ** Dates *)

Definition is_leap (year : Z) : bool :=
  (year mod 4 =? 0) && (negb (year mod 100 =? 0) || (year mod 400 =? 0)).

Definition days_before_year (year : Z) : Z :=
  let y := year - 1 in y * 365 + y / 4 - y / 100 + y / 400.

Definition days_before_month (year month : Z) : Z :=
  nth (Z.to_nat month) [0; 0; 31; 59; 90; 120; 151; 181; 212; 243; 273; 304; 334] 0
  + (if (2 <? month) && is_leap year then 1 else 0).

(** [datetime(year, month, day)] as its ordinal. *)
Definition datetime (year month day : Z) : Z :=
  days_before_year year + days_before_month year month + day.

(** ** build_sp500_history.py: events and the change log *)

Inductive action := ADD | REMOVE.

Global Instance action_eq_dec : EqDecision action.
Proof. solve_decision. Defined.

(** The order of the strings ['ADD'] and ['REMOVE']. *)
Global Instance action_cmp : Cmp action :=
  λ a b, match a, b with
         | ADD, ADD | REMOVE, REMOVE => Eq
         | ADD, REMOVE => Lt
         | REMOVE, ADD => Gt
         end.

(** An entry [(date, ticker, action, name)] of [change_log]. *)
Record event := Event {
  ev_date : Z;
  ev_ticker : string;
  ev_action : action;
  ev_name : string
}.

Global Instance event_eq_dec : EqDecision event.
Proof. solve_decision. Defined.

(** The tuple that Python's sort compares. *)
Definition event_key (e : event) : Z * string * action * string :=
  (ev_date e, ev_ticker e, ev_action e, ev_name e).

Global Instance event_cmp : Cmp event := λ e1 e2, cmp (event_key e1) (event_key e2).

(** [change_log.sort(reverse=True)]: descending in the tuple order. *)
Definition sort_reverse (change_log : list event) : list event :=
  merge_sort (flip cmp_le) change_log.

(** A row of [changes_table].  [row_date] is [None] when [pd.to_datetime]
    raises on the date cell and the date it returns otherwise; a ticker or
    name cell is [None] when it is not a [str] (an empty cell).  The tables
    covered are those with a text in every date cell: on an empty date cell
    [pd.to_datetime] returns [NaT] without raising, a value that compares
    false with every date, and such a row has no counterpart here. *)
Record change_row := ChangeRow {
  row_date : option Z;
  row_added_tickers : option string;
  row_added_names : option string;
  row_removed_tickers : option string;
  row_removed_names : option string
}.

Definition comma : ascii := ","%char.

(** The events of one side (added or removed) of a row:
    [zip(tickers, names)] after splitting and cleaning. *)
Definition side_pairs (tickers names : string) : list (string * string) :=
  zip ((λ t, upper (strip t)) <$> split comma tickers)
      (strip <$> split comma names).

(** The state threaded through the parsing loop. *)
Record parse_state := ParseState {
  change_log : list event;
  ticker_to_name : gmap string string
}.

(** One turn of [for t, n in zip(...)]: append the event, record the name. *)
Definition record_event (date : Z) (act : action) (st : parse_state)
    (tn : string * string) : parse_state :=
  {| change_log := change_log st ++ [Event date tn.1 act tn.2];
     ticker_to_name := <[tn.1 := tn.2]> (ticker_to_name st) |}.

(** [if isinstance(row[tickers], str): ...]; the names cell is split
    without a test, so a names cell that is not a string raises. *)
Definition parse_side (date : Z) (act : action) (tickers names : option string)
    (st : parse_state) : res parse_state :=
  match tickers with
  | None => Ok st
  | Some ts =>
      match names with
      | None => Raise AttributeError
      | Some ns => Ok (foldl (record_event date act) st (side_pairs ts ns))
      end
  end.

Definition parse_row (st : parse_state) (row : change_row) : res parse_state :=
  match row_date row with
  | None => Ok st
  | Some date =>
      st ←! parse_side date ADD (row_added_tickers row) (row_added_names row) st;
      parse_side date REMOVE (row_removed_tickers row) (row_removed_names row) st
  end.

Fixpoint parse_changes (rows : list change_row) (st : parse_state) : res parse_state :=
  match rows with
  | [] => Ok st
  | row :: rows' => st ←! parse_row st row; parse_changes rows' st
  end.

(** ** build_sp500_history.py: the backward replay *)

(** Undoing one event: [constituents.discard(ticker)] for an ['ADD'],
    [constituents.add(ticker)] for a ['REMOVE']. *)
Definition undo (e : event) (constituents : gset string) : gset string :=
  match ev_action e with
  | ADD => constituents ∖ {[ev_ticker e]}
  | REMOVE => constituents ∪ {[ev_ticker e]}
  end.

(** The forward reading of an event, used to replay a log in time order. *)
Definition apply_event (e : event) (constituents : gset string) : gset string :=
  match ev_action e with
  | ADD => constituents ∪ {[ev_ticker e]}
  | REMOVE => constituents ∖ {[ev_ticker e]}
  end.

(** The mutable variables of the replay.  [undone] is not in the script: it
    records every [change_log.pop(0)] in the order of the pops. *)
Record replay_state := ReplayState {
  queue : list event;
  constituents : gset string;
  undone : list event
}.

(** [while change_log and change_log[0][0] > snapshot_date: ...] *)
Fixpoint undo_newer (snapshot_date : Z) (log : list event)
    (members : gset string) (popped : list event) : replay_state :=
  match log with
  | e :: rest =>
      if decide (ev_date e > snapshot_date)
      then undo_newer snapshot_date rest (undo e members) (popped ++ [e])
      else ReplayState log members popped
  | [] => ReplayState [] members popped
  end.

Record snapshot := Snapshot {
  week_start : Z;
  tickers : list string;
  names : list string
}.

Global Instance snapshot_eq_dec : EqDecision snapshot.
Proof. solve_decision. Defined.

(** [sorted(...)] on strings. *)
Definition sorted (l : list string) : list string := merge_sort String.le l.

(** [ticker_to_name.get(t, "NA")] *)
Definition name_of (ticker_to_name : gmap string string) (t : string) : string :=
  default "NA" (ticker_to_name !! t).

(** [dict(zip(current_table['Symbol'], current_table['Security']))] *)
Definition dict_of_pairs (rows : list (string * string)) : gmap string string :=
  foldl (λ m kv, <[kv.1 := kv.2]> m) ∅ rows.

Record build_result := BuildResult {
  weekly_snapshots : list snapshot;
  final_state : replay_state
}.

(** [current_sp500 = set(current_table['Symbol'].tolist())] *)
Definition current_sp500 (current_table : list (string * string)) : gset string :=
  list_to_set (current_table.*1).

(** Steps 2 and 3 of the script: the name mapping of the current table, then
    the parsing loop over the change table. *)
Definition parse_tables (current_table : list (string * string))
    (changes_table : list change_row) : res parse_state :=
  parse_changes changes_table (ParseState [] (dict_of_pairs current_table)).

(** ** Vocabulary of the statements *)

(** The events of [log] dated strictly after [d], in the order of [log]. *)
Definition newer (d : Z) (log : list event) : list event :=
  filter (λ e, d < ev_date e) log.

(** The events of [log] dated [d] or earlier, in the order of [log]. *)
Definition not_newer (d : Z) (log : list event) : list event :=
  filter (λ e, ev_date e ≤ d) log.

(** Newest first. *)
Definition date_descending (log : list event) : Prop :=
  StronglySorted (λ e1 e2, ev_date e2 ≤ ev_date e1) log.

(** Undoing a list of events, first element first. *)
Definition undo_all (evs : list event) (members : gset string) : gset string :=
  foldl (flip undo) members evs.

(** Re-applying a list of undone events, last undone first: the events in
    the order of time. *)
Definition reapply_all (evs : list event) (members : gset string) : gset string :=
  foldl (flip apply_event) members (reverse evs).

(** The number of turns of [while snapshot_date >= start_date]. *)
Definition weeks (start_date snapshot_date : Z) : nat :=
  Z.to_nat ((snapshot_date - start_date) / 7 + 1).

Fixpoint dates_from (d : Z) (n : nat) : list Z :=
  match n with
  | O => []
  | S n' => d :: dates_from (d - 7) n'
  end.

(** [end_date], [end_date - 7], ... down to the last one not before
    [start_date]. *)
Definition week_dates (start_date end_date : Z) : list Z :=
  dates_from end_date (weeks start_date end_date).

(** Every undo of the list changes the working set: the ticker of an undone
    ['ADD'] is a member when it is discarded, the ticker of an undone
    ['REMOVE'] is not a member when it is added back. *)
Fixpoint undo_effective (evs : list event) (members : gset string) : bool :=
  match evs with
  | [] => true
  | e :: evs' =>
      match ev_action e with
      | ADD => bool_decide (ev_ticker e ∈ members)
      | REMOVE => bool_decide (ev_ticker e ∉ members)
      end && undo_effective evs' (undo e members)
  end.

(** The part of the sort key below the date. *)
Definition tie_key (e : event) : string * action * string :=
  (ev_ticker e, ev_action e, ev_name e).

(** The name the parsing loop leaves for a ticker: the name of the last
    parsed event of that ticker, else the name recorded before the loop. *)
Definition merged_name (before : gmap string string) (log : list event) (t : string) :
    option string :=
  match last (filter (λ e, ev_ticker e = t) log) with
  | Some e => Some (ev_name e)
  | None => before !! t
  end.

Definition names_merged (before : gmap string string) (st : parse_state) : Prop :=
  ∀ t, ticker_to_name st !! t = merged_name before (change_log st) t.

(** One turn of the inner loop on the replay state. *)
Definition step (d : Z) (st : replay_state) : replay_state :=
  undo_newer d (queue st) (constituents st) (undone st).

Section Replay.
(** The order in which a Python [set] hands out its elements; it differs
    from run to run (string hashes are salted). *)
Variable iter : gset string → list string.

Definition make_snapshot (ticker_to_name : gmap string string)
    (snapshot_date : Z) (members : gset string) : snapshot :=
  {| week_start := snapshot_date;
     tickers := sorted (iter members);
     names := name_of ticker_to_name <$> sorted (iter members) |}.

(** [while snapshot_date >= start_date: ...] *)
Equations? weekly_loop (start_date : Z) (ticker_to_name : gmap string string)
    (snapshot_date : Z) (st : replay_state) (acc : list snapshot) : build_result
  by wf (Z.to_nat (snapshot_date - start_date + 1)) lt :=
  weekly_loop start_date ticker_to_name snapshot_date st acc
    with decide (snapshot_date >= start_date) := {
    | left _ =>
        let st' := undo_newer snapshot_date (queue st) (constituents st) (undone st) in
        weekly_loop start_date ticker_to_name (snapshot_date - 7) st'
          (acc ++ [make_snapshot ticker_to_name snapshot_date (constituents st')])
    | right _ => BuildResult acc st }.
Proof. lia. Qed.

(** The outer loop with its number of turns made explicit. *)
Fixpoint run_weeks (ticker_to_name : gmap string string) (d : Z) (n : nat)
    (st : replay_state) (acc : list snapshot) : build_result :=
  match n with
  | O => BuildResult acc st
  | S n' =>
      let st' := step d st in
      run_weeks ticker_to_name (d - 7) n' st'
        (acc ++ [make_snapshot ticker_to_name d (constituents st')])
  end.

(** The script from the two tables on, with the date range as arguments. *)
Definition build_sp500_history (current_table : list (string * string))
    (changes_table : list change_row) (start_date end_date : Z) : res build_result :=
  parsed ←! parse_tables current_table changes_table;
  let log := sort_reverse (change_log parsed) in
  Ok (weekly_loop start_date (ticker_to_name parsed) end_date
        (ReplayState log (current_sp500 current_table) []) []).
End Replay.

(** The date range of the script. *)
Definition start_date : Z := datetime 2022 1 3.
Definition end_date : Z := datetime 2025 1 6.


(** The script itself. *)
Definition main (current_table : list (string * string))
    (changes_table : list change_row) : res build_result :=
  build_sp500_history elements current_table changes_table start_date end_date.

Definition res_map {A B} (f : A → B) (m : res A) : res B :=
  match m with
  | Ok a => Ok (f a)
  | Raise e => Raise e
  end.

(** ** Sample tables *)

(** A change row with an addition only. *)
Definition row_add (d : Z) (t n : string) : change_row :=
  ChangeRow (Some d) (Some t) (Some n) None None.

(** A change row with a removal only. *)
Definition row_remove (d : Z) (t n : string) : change_row :=
  ChangeRow (Some d) None None (Some t) (Some n).

Definition table_ABC : list (string * string) :=
  [("A", "Alpha"); ("B", "Beta"); ("C", "Gamma")].

Definition table_ABCD : list (string * string) :=
  [("A", "Alpha"); ("B", "Beta"); ("C", "Gamma"); ("D", "Delta")].

(** The single event [(2023-06-01, D, ADD)]. *)
Definition changes_add_D : list change_row :=
  [row_add (datetime 2023 6 1) "D" "Delta"].

(** The ticker lists of the snapshots of a build, in the order of the build. *)
Definition snapshot_tickers (r : res build_result) : res (list (list string)) :=
  res_map (λ r, tickers <$> weekly_snapshots r) r.

(** ** sentiment_scraper.py: the top-N selection *)

(** [Config.TOP_N_WEEKLY] *)
Definition TOP_N_WEEKLY : nat := 5.

(** The sort key of a [(ticker, count)] pair: the count descending, then the
    ticker ascending. *)
Definition tally_key (p : string * nat) : Z * string := (- Z.of_nat p.2, p.1).

Definition tally_le (p q : string * nat) : Prop := cmp_le (tally_key p) (tally_key q).

Global Instance tally_le_dec : RelDecision tally_le.
Proof. intros p q. unfold tally_le. apply _. Defined.

(** Modelled from the spec: the selection step of the mention filter, which
    is missing from the sources ([sentiment_scraper.py] stops after the
    configuration and the client set-up).  Step 4 of the filter: sort the
    [(ticker, count)] pairs descending by count, ascending by ticker symbol
    as tie-break, and take the first [top_n]. *)
Definition top_selection (top_n : nat) (tally : list (string * nat)) : list (string * nat) :=
  take top_n (merge_sort tally_le tally).

(** The order the selection is listed in. *)
Definition selection_order (p q : string * nat) : Prop :=
  (q.2 < p.2)%nat ∨ (p.2 = q.2 ∧ String.le p.1 q.1).

(** ** strategy_backtester.py: calculate_metrics *)

(** [a / b] on Python numbers. *)
Definition py_div (a b : Q) : res Q :=
  if Qeq_bool b 0 then Raise ZeroDivisionError else Ok (a / b)%Q.

(** [series.iloc[-1]] *)
Definition iloc_last {A} (series : list A) : res A :=
  match last series with
  | Some x => Ok x
  | None => Raise IndexError
  end.

Definition weeks_per_year : Z := 52.

(** [years = len(returns_df) / weeks_per_year] *)
Definition years {A} (returns_df : list A) : Q :=
  (inject_Z (Z.of_nat (length returns_df)) / inject_Z weeks_per_year)%Q.

Section Backtester.
(** The values of a pandas series are [float64]; their arithmetic and the
    reductions of a series never raise (they yield [inf] or [nan]), so they
    are taken as they come. *)
Variable F : Type.
Variables (fone : F) (fadd fsub fmul fdiv fmax : F → F → F).
Variables (fpow : F → Q → F) (fsqrt : F → F) (of_Q : Q → F).
Variables (series_mean series_std series_min : list F → F).
Variable isnan : F → bool.

Record metrics := Metrics {
  mean_weekly_return : F;
  weekly_volatility : F;
  cumulative_return : list F;
  cagr : F;
  sharpe_ratio : F;
  max_drawdown : F
}.

(** [series.cumprod()] and [series.cummax()]: a missing value ([nan]) is
    skipped, it stays in its place and the running value carries on from the
    last entry that is not missing. *)
Fixpoint scan (op : F → F → F) (acc : option F) (series : list F) : list F :=
  match series with
  | [] => []
  | x :: rest =>
      if isnan x then x :: scan op acc rest
      else
        let v := match acc with Some a => op a x | None => x end in
        v :: scan op (Some v) rest
  end.

Definition cumulate (op : F → F → F) (series : list F) : list F :=
  scan op None series.

Definition calculate_metrics (returns_df : list F) (risk_free_rate : Q) : res metrics :=
  let mean := series_mean returns_df in
  let vol := series_std returns_df in
  let cumulative_returns := cumulate fmul (fadd fone <$> returns_df) in
  total_return ←! iloc_last cumulative_returns;
  exponent ←! py_div 1 (years returns_df);
  let cagr := fsub (fpow total_return exponent) fone in
  let sharpe := fdiv (fsub mean (of_Q (risk_free_rate / inject_Z weeks_per_year))) vol in
  let rolling_max := cumulate fmax cumulative_returns in
  let drawdown := zip_with (λ c m, fdiv (fsub c m) m) cumulative_returns rolling_max in
  Ok {| mean_weekly_return := mean;
        weekly_volatility := vol;
        cumulative_return := cumulative_returns;
        cagr := cagr;
        sharpe_ratio := fmul sharpe (fsqrt (of_Q (inject_Z weeks_per_year)));
        max_drawdown := series_min drawdown |}.
End Backtester.

(** ** strategy_backtester.py: get_trading_dates *)

(** [index.min()] and [index.max()]; [None] stands for [NaT], their value
    on an empty index. *)
Definition index_min (index : list Z) : option Z :=
  match index with
  | [] => None
  | d :: rest => Some (foldl Z.min d rest)
  end.

Definition index_max (index : list Z) : option Z :=
  match index with
  | [] => None
  | d :: rest => Some (foldl Z.max d rest)
  end.

(** [pd.date_range(start=week_start, end=week_end)]: every day from
    [week_start] to [week_end]. *)
Definition date_range (week_start week_end : Z) : list Z :=
  seqZ week_start (week_end - week_start + 1).

(** [download start end] is the index of the frame [yf.download('SPY', ...)]
    returns, the trading days the provider knows for that window. *)
Definition get_trading_dates (download : option Z → option Z → list Z)
    (week_start week_end : Z) : option Z * option Z :=
  let date_range := date_range week_start week_end in
  let spy_index := download ((λ d, d - 3) <$> index_min date_range)
                            ((λ d, d + 3) <$> index_max date_range) in
  let trading_days_in_week := filter (λ d, d ∈ date_range) spy_index in
  match trading_days_in_week with
  | [] => (None, None)
  | _ :: _ => (index_min trading_days_in_week, index_max trading_days_in_week)
  end.

(** [if not buy_date or not sell_date or buy_date == sell_date: continue]
    in [run_backtest]. *)
Definition week_skipped (dates : option Z * option Z) : bool :=
  match dates with
  | (Some buy_date, Some sell_date) => bool_decide (buy_date = sell_date)
  | _ => true
  end.

(** A provider that knows the trading days around the week of 2023-07-03
    (the 4th is a holiday), whatever window it is asked for. *)
Definition sample_download (start end_ : option Z) : list Z :=
  [datetime 2023 6 30; datetime 2023 7 3; datetime 2023 7 5; datetime 2023 7 6;
   datetime 2023 7 7; datetime 2023 7 10].

(** ** sentiment_scraper.py: the date range of the scrape *)

(** [Config.HISTORICAL_START] and [Config.HISTORICAL_END] *)
Definition HISTORICAL_START : Z := datetime 2021 1 1.
Definition HISTORICAL_END : Z := datetime 2024 1 1.

(** ** More vocabulary *)

(** [date.weekday()]: 0 is Monday, 6 is Sunday. *)
Definition weekday (d : Z) : Z := (d + 6) mod 7.

(** The events a side of a row stands for. *)
Definition side_events (date : Z) (act : action) (tickers names : option string) :
    list event :=
  match tickers, names with
  | Some ts, Some ns => (λ tn, Event date tn.1 act tn.2) <$> side_pairs ts ns
  | _, _ => []
  end.

(** The events a row stands for: its additions, then its removals. *)
Definition row_events (row : change_row) : list event :=
  match row_date row with
  | None => []
  | Some date =>
      side_events date ADD (row_added_tickers row) (row_added_names row) ++
      side_events date REMOVE (row_removed_tickers row) (row_removed_names row)
  end.

(** A side can be parsed: its names cell is a string when its tickers cell
    is one. *)
Definition side_wf (tickers names : option string) : bool :=
  match tickers, names with
  | Some _, None => false
  | _, _ => true
  end.

Definition row_wf (row : change_row) : bool :=
  match row_date row with
  | None => true
  | Some _ =>
      side_wf (row_added_tickers row) (row_added_names row) &&
      side_wf (row_removed_tickers row) (row_removed_names row)
  end.

(** Recording the names of a list of events, first event first. *)
Definition record_names (m : gmap string string) (evs : list event) : gmap string string :=
  foldl (λ m e, <[ev_ticker e := ev_name e]> m) m evs.

(** Leading white space dropped, on the list of characters. *)
Fixpoint drop_spaces (l : list ascii) : list ascii :=
  match l with
  | c :: l' => if isspace c then drop_spaces l' else l
  | [] => []
  end.

(** * Properties *)

(** ** The comparison classes *)

Section CmpFacts.
Context {A : Type} `{CmpSpec A}.

Lemma cmp_refl (x : A) : cmp x x = Eq.
Proof. by apply cmp_eq_iff. Qed.

Lemma cmp_gt_lt (x y : A) : cmp x y = Gt ↔ cmp y x = Lt.
Proof. rewrite (cmp_opp x y). destruct (cmp x y); naive_solver. Qed.

Global Instance cmp_le_refl : Reflexive (cmp_le (A:=A)).
Proof. intros x. unfold cmp_le, cmp_leb. by rewrite cmp_refl. Qed.

Global Instance cmp_le_total : Total (cmp_le (A:=A)).
Proof.
  intros x y. unfold cmp_le, cmp_leb. rewrite (cmp_opp x y).
  destruct (cmp x y); simpl; auto.
Qed.

Global Instance cmp_le_trans : Transitive (cmp_le (A:=A)).
Proof.
  intros x y z. unfold cmp_le, cmp_leb.
  destruct (cmp x y) eqn:Hxy; [|intros _|done].
  - apply cmp_eq_iff in Hxy as ->. done.
  - destruct (cmp y z) eqn:Hyz; [|intros _|done].
    + apply cmp_eq_iff in Hyz as ->. by rewrite Hxy.
    + by rewrite (cmp_lt_trans x y z).
Qed.

Global Instance cmp_le_antisym : AntiSymm (=) (cmp_le (A:=A)).
Proof.
  intros x y. unfold cmp_le, cmp_leb. rewrite (cmp_opp x y).
  destruct (cmp x y) eqn:Hxy; simpl; try done.
  intros _ _. by apply cmp_eq_iff.
Qed.

Global Instance flip_cmp_le_total : Total (flip (cmp_le (A:=A))).
Proof. intros x y. unfold flip. destruct (total cmp_le y x); auto. Qed.

Global Instance flip_cmp_le_trans : Transitive (flip (cmp_le (A:=A))).
Proof. intros x y z Hxy Hyz. unfold flip in *. by etrans. Qed.

Global Instance flip_cmp_le_antisym : AntiSymm (=) (flip (cmp_le (A:=A))).
Proof. intros x y Hxy Hyx. unfold flip in *. by apply (anti_symm cmp_le). Qed.

Lemma cmp_le_lt_or_eq (x y : A) : cmp_le x y ↔ cmp x y = Lt ∨ x = y.
Proof.
  unfold cmp_le, cmp_leb. destruct (cmp x y) eqn:Hxy; simpl.
  - apply cmp_eq_iff in Hxy. naive_solver.
  - naive_solver.
  - split; [done|]. intros [?| ->]; [done|]. by rewrite cmp_refl in Hxy.
Qed.
End CmpFacts.

Global Instance Z_cmp_spec : CmpSpec Z.
Proof.
  split; unfold cmp, Z_cmp.
  - apply Z.compare_eq_iff.
  - intros x y. apply Z.compare_antisym.
  - intros x y z. rewrite !Z.compare_lt_iff. lia.
Qed.

Lemma string_compare_refl (s : string) : String.compare s s = Eq.
Proof.
  induction s as [|a s IH]; simpl; [done|].
  unfold Ascii.compare. by rewrite N.compare_refl.
Qed.

Global Instance string_cmp_spec : CmpSpec string.
Proof.
  split; unfold cmp, string_cmp.
  - intros x y. split; [apply String.compare_eq_iff|].
    intros ->. apply string_compare_refl.
  - intros x y. apply String.compare_antisym.
  - intros x y z Hxy Hyz.
    assert (String.le x z) as Hle.
    { etrans; unfold String.le, String.leb; [by rewrite Hxy | by rewrite Hyz]. }
    unfold String.le, String.leb in Hle.
    destruct (String.compare x z) eqn:Hxz; [|done|done].
    apply String.compare_eq_iff in Hxz as ->.
    rewrite String.compare_antisym, Hxy in Hyz. done.
Qed.

Global Instance action_cmp_spec : CmpSpec action.
Proof. split; unfold cmp, action_cmp; intros [] []; try intros []; naive_solver. Qed.

Global Instance prod_cmp_spec {A B} `{CmpSpec A, CmpSpec B} : CmpSpec (A * B).
Proof.
  split; unfold cmp, prod_cmp.
  - intros [a1 b1] [a2 b2]; simpl. destruct (cmp a1 a2) eqn:Ha.
    + apply cmp_eq_iff in Ha as ->. rewrite cmp_eq_iff. naive_solver.
    + split; [done|]. intros [= -> _]. by rewrite cmp_refl in Ha.
    + split; [done|]. intros [= -> _]. by rewrite cmp_refl in Ha.
  - intros [a1 b1] [a2 b2]; simpl. rewrite (cmp_opp a1 a2).
    destruct (cmp a1 a2); simpl; [apply cmp_opp|done..].
  - intros [a1 b1] [a2 b2] [a3 b3]; simpl.
    destruct (cmp a1 a2) eqn:H12; [|intros _|done].
    + apply cmp_eq_iff in H12 as ->. destruct (cmp a2 a3); [|done..].
      apply cmp_lt_trans.
    + destruct (cmp a2 a3) eqn:H23; [|intros _|done].
      * apply cmp_eq_iff in H23 as ->. by rewrite H12.
      * by rewrite (cmp_lt_trans a1 a2 a3).
Qed.

Lemma event_key_inj : Inj (=) (=) event_key.
Proof. intros [] [] [=]. by subst. Qed.

Global Instance event_cmp_spec : CmpSpec event.
Proof.
  split; unfold cmp, event_cmp.
  - intros x y. rewrite cmp_eq_iff. split; [apply event_key_inj|by intros ->].
  - intros x y. apply cmp_opp.
  - intros x y z. apply cmp_lt_trans.
Qed.

(** ** The sorted change log *)

Lemma event_le_date (e1 e2 : event) : cmp_le e1 e2 → ev_date e1 ≤ ev_date e2.
Proof.
  unfold cmp_le, cmp_leb. cbv [cmp event_cmp event_key prod_cmp Z_cmp fst snd].
  destruct (Z.compare_spec (ev_date e1) (ev_date e2)); [lia|lia|done].
Qed.

Lemma sort_reverse_perm (log : list event) : sort_reverse log ≡ₚ log.
Proof. apply merge_sort_Permutation. Qed.

Lemma sort_reverse_sorted (log : list event) :
  StronglySorted (flip cmp_le) (sort_reverse log).
Proof.
  apply (StronglySorted_merge_sort (flip cmp_le)).
Qed.

Lemma sort_reverse_date_descending (log : list event) :
  date_descending (sort_reverse log).
Proof.
  unfold date_descending.
  induction (sort_reverse_sorted log) as [|e l Hl IH Hall]; constructor; [done|].
  eapply Forall_impl; [exact Hall|]. intros e'. apply event_le_date.
Qed.

(** A sorted change log is determined by its content. *)
Lemma sort_reverse_unique (l1 l2 : list event) :
  l1 ≡ₚ l2 → sort_reverse l1 = sort_reverse l2.
Proof.
  intros Hp. apply (StronglySorted_unique (flip cmp_le)); try apply sort_reverse_sorted.
  by rewrite !sort_reverse_perm.
Qed.

(** ** The inner loop *)

Lemma undo_newer_compose (d d' : Z) (log : list event) (S : gset string)
    (u : list event) :
  d' ≤ d →
  undo_newer d' (queue (undo_newer d log S u)) (constituents (undo_newer d log S u))
    (undone (undo_newer d log S u)) = undo_newer d' log S u.
Proof.
  intros Hd. revert S u. induction log as [|e log IH]; intros S u; simpl; [done|].
  destruct (decide (ev_date e > d)) as [Hgt|Hle].
  - rewrite IH. destruct (decide (ev_date e > d')); [done|lia].
  - simpl. done.
Qed.

(** The pops are a prefix of the queue. *)
Lemma undo_newer_split (d : Z) (log : list event) (S : gset string) (u : list event) :
  ∃ popped,
    undone (undo_newer d log S u) = u ++ popped ∧
    popped ++ queue (undo_newer d log S u) = log ∧
    constituents (undo_newer d log S u) = undo_all popped S ∧
    Forall (λ e, d < ev_date e) popped.
Proof.
  revert S u. induction log as [|e log IH]; intros S u; simpl.
  - exists []. by rewrite app_nil_r.
  - destruct (decide (ev_date e > d)) as [Hgt|Hle].
    + destruct (IH (undo e S) (u ++ [e])) as (p & Hu & Hq & Hc & Hall).
      exists (e :: p). rewrite Hu, <- app_assoc. simpl. rewrite Hq.
      repeat split; [done|]. constructor; [lia|done].
    + exists []. simpl. by rewrite app_nil_r.
Qed.

Lemma newer_nil_of_le (d : Z) (log : list event) :
  Forall (λ e, ev_date e ≤ d) log → newer d log = [] ∧ not_newer d log = log.
Proof.
  unfold newer, not_newer. induction 1 as [|e l He Hl [IH1 IH2]]; [done|].
  rewrite (filter_cons_False (λ e, d < ev_date e)) by lia.
  rewrite (filter_cons_True (λ e, ev_date e ≤ d)) by lia.
  by rewrite IH1, IH2.
Qed.

(** On a log sorted newest first the inner loop pops exactly the events
    dated after the snapshot date. *)
Lemma undo_newer_sorted (d : Z) (log : list event) (S : gset string) (u : list event) :
  date_descending log →
  undo_newer d log S u =
    ReplayState (not_newer d log) (undo_all (newer d log) S) (u ++ newer d log).
Proof.
  intros Hs. revert S u.
  induction Hs as [|e log Hs IH Hall]; intros S u; simpl.
  - by rewrite app_nil_r.
  - destruct (decide (ev_date e > d)) as [Hgt|Hle].
    + rewrite IH. unfold newer, not_newer.
      rewrite (filter_cons_True (λ e, d < ev_date e)) by lia.
      rewrite (filter_cons_False (λ e, ev_date e ≤ d)) by lia.
      simpl. by rewrite <- app_assoc.
    + assert (Forall (λ e', ev_date e' ≤ d) (e :: log)) as Hle'.
      { constructor; [lia|]. eapply Forall_impl; [exact Hall|].
        simpl. intros; lia. }
      destruct (newer_nil_of_le d _ Hle') as [-> ->]. simpl.
      by rewrite app_nil_r.
Qed.

(** ** The outer loop *)

Lemma weeks_0 (start_date d : Z) : d < start_date → weeks start_date d = O.
Proof. intros Hd. unfold weeks. assert ((d - start_date) / 7 < 0) by (apply Z.div_lt_upper_bound; lia). lia. Qed.

Lemma weeks_S (start_date d : Z) :
  start_date ≤ d → weeks start_date d = S (weeks start_date (d - 7)).
Proof.
  intros Hd. unfold weeks.
  replace (d - start_date) with ((d - 7 - start_date) + 1 * 7) by lia.
  rewrite Z.div_add by lia.
  assert (-1 ≤ (d - 7 - start_date) / 7) by (apply Z.div_le_lower_bound; lia).
  lia.
Qed.

Lemma dates_from_closed (d : Z) (n : nat) :
  dates_from d n = (λ k : nat, d - 7 * Z.of_nat k) <$> seq 0 n.
Proof.
  revert d. induction n as [|n IH]; intros d; [done|].
  simpl. rewrite <- fmap_S_seq, <- list_fmap_compose, IH.
  f_equal; [lia|]. apply list_fmap_ext. intros _ k _. simpl. lia.
Qed.

Lemma elem_of_dates_from (d : Z) (n : nat) (x : Z) :
  x ∈ dates_from d n ↔ ∃ k : nat, (k < n)%nat ∧ x = d - 7 * Z.of_nat k.
Proof.
  rewrite dates_from_closed, list_elem_of_fmap. split.
  - intros (k & -> & Hk%elem_of_seq). exists k. split; [lia|done].
  - intros (k & Hk & ->). exists k. split; [done|]. apply elem_of_seq. lia.
Qed.

Lemma dates_from_le (d : Z) (n : nat) (x : Z) : x ∈ dates_from d n → x ≤ d.
Proof. rewrite elem_of_dates_from. intros (k & _ & ->). lia. Qed.

Lemma dates_from_descending (d : Z) (n : nat) :
  StronglySorted (λ x y, y < x) (dates_from d n).
Proof.
  revert d. induction n as [|n IH]; intros d; simpl; constructor; [apply IH|].
  apply Forall_forall. intros x Hx%dates_from_le. lia.
Qed.

Lemma weeks_bound (start_date end_date : Z) (k : nat) :
  (k < weeks start_date end_date)%nat ↔ start_date ≤ end_date - 7 * Z.of_nat k.
Proof.
  unfold weeks. split.
  - intros Hk.
    assert (Z.of_nat k ≤ (end_date - start_date) / 7) as Hle by lia.
    assert (7 * ((end_date - start_date) / 7) ≤ end_date - start_date)
      by (apply Z.mul_div_le; lia).
    lia.
  - intros Hk.
    assert (Z.of_nat k ≤ (end_date - start_date) / 7)
      by (apply Z.div_le_lower_bound; lia).
    lia.
Qed.

(** The snapshot dates are the dates of the range that lie a whole number of
    weeks before [end_date]. *)
Lemma elem_of_week_dates (start_date end_date x : Z) :
  x ∈ week_dates start_date end_date ↔
  start_date ≤ x ≤ end_date ∧ (end_date - x) mod 7 = 0.
Proof.
  unfold week_dates. rewrite elem_of_dates_from. split.
  - intros (k & Hk%weeks_bound & ->). split; [lia|].
    replace (end_date - (end_date - 7 * Z.of_nat k)) with (Z.of_nat k * 7) by lia.
    apply Z.mod_mul. lia.
  - intros ([Hlo Hhi] & Hmod).
    apply Z.mod_divide in Hmod as [q Hq]; [|lia].
    exists (Z.to_nat q). rewrite weeks_bound. lia.
Qed.

Section ReplayFacts.
Variable iter : gset string → list string.

Lemma weekly_loop_eq start_date ticker_to_name d st acc :
  weekly_loop iter start_date ticker_to_name d st acc =
  if decide (d >= start_date)
  then weekly_loop iter start_date ticker_to_name (d - 7) (step d st)
         (acc ++ [make_snapshot iter ticker_to_name d (constituents (step d st))])
  else BuildResult acc st.
Proof.
  rewrite weekly_loop_equation_1. by destruct (decide (d >= start_date)).
Qed.

Lemma weekly_loop_run start_date ticker_to_name d st acc :
  weekly_loop iter start_date ticker_to_name d st acc =
  run_weeks iter ticker_to_name d (weeks start_date d) st acc.
Proof.
  remember (weeks start_date d) as n eqn:Hn.
  revert d st acc Hn. induction n as [|n IH]; intros d st acc Hn.
  - rewrite weekly_loop_eq. destruct (decide (d >= start_date)); [|done].
    rewrite weeks_S in Hn by lia. done.
  - rewrite weekly_loop_eq. destruct (decide (d >= start_date)).
    + rewrite weeks_S in Hn by lia. simpl. apply IH. congruence.
    + rewrite weeks_0 in Hn by lia. done.
Qed.

Lemma step_compose (d d' : Z) (st : replay_state) :
  d' ≤ d → step d' (step d st) = step d' st.
Proof. intros. unfold step. by apply undo_newer_compose. Qed.

(** Every snapshot is the state the inner loop reaches for its date from
    the initial state; the final state is the one of the last date. *)
Lemma run_weeks_spec ticker_to_name (n : nat) (d : Z) st acc :
  run_weeks iter ticker_to_name d n st acc =
  BuildResult
    (acc ++ ((λ d', make_snapshot iter ticker_to_name d' (constituents (step d' st)))
               <$> dates_from d n))
    (from_option (λ d', step d' st) st (last (dates_from d n))).
Proof.
  revert d st acc. induction n as [|n IH]; intros d st acc; simpl.
  - by rewrite app_nil_r.
  - rewrite IH, <- app_assoc. simpl. f_equal.
    + f_equal. f_equal. apply list_fmap_ext. intros _ d' Hd'%list_elem_of_lookup_2.
      apply dates_from_le in Hd'. rewrite step_compose by lia. reflexivity.
    + destruct (dates_from (d - 7) n) as [|x l] eqn:Hl; [done|].
      change (last (d :: x :: l)) with (last (x :: l)).
      destruct (last (x :: l)) as [d'|] eqn:Hlast; simpl;
      [|by apply last_None in Hlast].
      apply last_Some_elem_of in Hlast. rewrite <- Hl in Hlast.
      apply dates_from_le in Hlast. apply step_compose. lia.
Qed.

Lemma weekly_loop_spec start_date ticker_to_name end_date st :
  weekly_loop iter start_date ticker_to_name end_date st [] =
  BuildResult
    ((λ d, make_snapshot iter ticker_to_name d (constituents (step d st)))
       <$> week_dates start_date end_date)
    (from_option (λ d, step d st) st (last (week_dates start_date end_date))).
Proof. rewrite weekly_loop_run, run_weeks_spec. done. Qed.
End ReplayFacts.

(** ** The whole build *)

Lemma sorted_perm (l : list string) : sorted l ≡ₚ l.
Proof. apply merge_sort_Permutation. Qed.

Lemma sorted_sorted (l : list string) : StronglySorted String.le (sorted l).
Proof. apply (StronglySorted_merge_sort String.le). Qed.

Lemma elem_of_sorted_elements (t : string) (members : gset string) :
  t ∈ sorted (elements members) ↔ t ∈ members.
Proof. by rewrite sorted_perm, elem_of_elements. Qed.

(** [sorted] does not depend on the order its argument comes in. *)
Lemma sorted_unique (l1 l2 : list string) : l1 ≡ₚ l2 → sorted l1 = sorted l2.
Proof.
  intros Hp. apply (StronglySorted_unique String.le); try apply sorted_sorted.
  by rewrite !sorted_perm.
Qed.

Lemma step_initial (d : Z) (log : list event) (cur : gset string) :
  date_descending log →
  step d (ReplayState log cur []) =
  ReplayState (not_newer d log) (undo_all (newer d log) cur) (newer d log).
Proof. intros Hs. unfold step. simpl. by rewrite undo_newer_sorted. Qed.

Section BuildFacts.
Variable iter : gset string → list string.
Variables (current_table : list (string * string)) (changes_table : list change_row).
Variables (start_date end_date : Z).

Lemma build_ok (parsed : parse_state) :
  parse_tables current_table changes_table = Ok parsed →
  build_sp500_history iter current_table changes_table start_date end_date =
  Ok (weekly_loop iter start_date (ticker_to_name parsed) end_date
        (ReplayState (sort_reverse (change_log parsed)) (current_sp500 current_table) [])
        []).
Proof. intros Hp. unfold build_sp500_history. by rewrite Hp. Qed.

(** The result of a build, snapshot by snapshot. *)
Lemma build_spec (parsed : parse_state) :
  parse_tables current_table changes_table = Ok parsed →
  let log := sort_reverse (change_log parsed) in
  let cur := current_sp500 current_table in
  ∃ r, build_sp500_history iter current_table changes_table start_date end_date = Ok r ∧
    weekly_snapshots r =
      ((λ d, make_snapshot iter (ticker_to_name parsed) d (undo_all (newer d log) cur))
         <$> week_dates start_date end_date) ∧
    final_state r =
      from_option
        (λ d, ReplayState (not_newer d log) (undo_all (newer d log) cur) (newer d log))
        (ReplayState log cur []) (last (week_dates start_date end_date)).
Proof.
  intros Hp log cur. eexists. split; [by apply build_ok|].
  rewrite weekly_loop_spec. simpl. split.
  - apply list_fmap_ext. intros _ d _.
    rewrite step_initial by apply sort_reverse_date_descending. done.
  - destruct (last (week_dates start_date end_date)) as [d|]; simpl; [|done].
    apply step_initial, sort_reverse_date_descending.
Qed.

Lemma build_snapshot_elem (parsed : parse_state) (r : build_result) (s : snapshot) :
  parse_tables current_table changes_table = Ok parsed →
  build_sp500_history iter current_table changes_table start_date end_date = Ok r →
  s ∈ weekly_snapshots r →
  week_start s ∈ week_dates start_date end_date ∧
  s = make_snapshot iter (ticker_to_name parsed) (week_start s)
        (undo_all (newer (week_start s) (sort_reverse (change_log parsed)))
           (current_sp500 current_table)).
Proof.
  intros Hp Hb Hs. destruct (build_spec parsed Hp) as (r' & Hb' & Hsnaps & _).
  rewrite Hb in Hb'. injection Hb' as <-. rewrite Hsnaps in Hs.
  apply list_elem_of_fmap in Hs as (d & -> & Hd). done.
Qed.
End BuildFacts.

(** ** Timeline coverage *)

(** C5.  A build whose change table parses returns a result, and the dates
    of its snapshots are [end_date], [end_date - 7], [end_date - 14], ...
    as long as they are not before [start_date]: exactly the dates of
    [[start_date, end_date]] a whole number of weeks before [end_date], each
    once, newest first; [end_date] leads whenever [start_date <= end_date]. *)
Theorem timeline_coverage (iter : gset string → list string)
    (current_table : list (string * string)) (changes_table : list change_row)
    (start_date end_date : Z) (parsed : parse_state) :
  parse_tables current_table changes_table = Ok parsed →
  ∃ r, build_sp500_history iter current_table changes_table start_date end_date = Ok r ∧
    week_start <$> weekly_snapshots r =
      ((λ k : nat, end_date - 7 * Z.of_nat k)
         <$> seq 0 (Z.to_nat ((end_date - start_date) / 7 + 1))) ∧
    (∀ d, d ∈ week_start <$> weekly_snapshots r ↔
          start_date ≤ d ≤ end_date ∧ (end_date - d) mod 7 = 0) ∧
    StronglySorted (λ d1 d2, d2 < d1) (week_start <$> weekly_snapshots r) ∧
    (start_date ≤ end_date → head (week_start <$> weekly_snapshots r) = Some end_date).
Proof.
  intros Hp.
  destruct (build_spec iter current_table changes_table start_date end_date parsed Hp)
    as (r & Hb & Hsnaps & _).
  exists r. split; [done|].
  assert (week_start <$> weekly_snapshots r = week_dates start_date end_date) as ->.
  { rewrite Hsnaps, <- list_fmap_compose. rewrite <- (list_fmap_id (week_dates _ _)) at 2.
    by apply list_fmap_ext. }
  split; [apply dates_from_closed|].
  split; [apply elem_of_week_dates|].
  split; [apply dates_from_descending|].
  intros Hle. unfold week_dates. rewrite weeks_S by lia. done.
Qed.

Lemma timeline_coverage_witness :
  ∃ r, build_sp500_history elements table_ABC changes_add_D
         (datetime 2023 5 1) (datetime 2023 7 1) = Ok r ∧
    week_start <$> weekly_snapshots r =
      ((λ k : nat, datetime 2023 7 1 - 7 * Z.of_nat k)
         <$> seq 0 (Z.to_nat ((datetime 2023 7 1 - datetime 2023 5 1) / 7 + 1))) ∧
    (∀ d, d ∈ week_start <$> weekly_snapshots r ↔
          datetime 2023 5 1 ≤ d ≤ datetime 2023 7 1 ∧ (datetime 2023 7 1 - d) mod 7 = 0) ∧
    StronglySorted (λ d1 d2, d2 < d1) (week_start <$> weekly_snapshots r) ∧
    (datetime 2023 5 1 ≤ datetime 2023 7 1 →
     head (week_start <$> weekly_snapshots r) = Some (datetime 2023 7 1)).
Proof.
  eapply timeline_coverage. vm_compute. reflexivity.
Defined.

(** The script's own range, 2022-01-03 to 2025-01-06, gives 158 snapshots,
    the last one dated 2022-01-03. *)
Example main_snapshot_dates :
  res_map (λ r, (length (weekly_snapshots r), week_start <$> last (weekly_snapshots r)))
    (main table_ABC changes_add_D) = Ok (158%nat, Some (datetime 2022 1 3)).
Proof. vm_compute. reflexivity. Qed.

(** ** Point-in-time membership *)

Lemma elem_of_undo (t : string) (e : event) (members : gset string) :
  t ∈ undo e members ↔
  match ev_action e with
  | ADD => t ∈ members ∧ t ≠ ev_ticker e
  | REMOVE => t ∈ members ∨ t = ev_ticker e
  end.
Proof. unfold undo. destruct (ev_action e); set_solver. Qed.

Lemma list_to_set_sorted_elements (members : gset string) :
  list_to_set (sorted (elements members)) = members.
Proof.
  apply set_eq. intros t. by rewrite elem_of_list_to_set, elem_of_sorted_elements.
Qed.

Lemma undo_all_snoc (evs : list event) (e : event) (members : gset string) :
  undo_all (evs ++ [e]) members = undo e (undo_all evs members).
Proof. unfold undo_all. by rewrite foldl_app. Qed.

(** After undoing a list of events a ticker is a member according to the
    last undone event that names it, and as before when none names it. *)
Lemma undo_all_decided (evs : list event) (members : gset string) (t : string) :
  t ∈ undo_all evs members ↔
  match last (filter (λ e, ev_ticker e = t) evs) with
  | Some e => ev_action e = REMOVE
  | None => t ∈ members
  end.
Proof.
  induction evs as [|e evs IH] using rev_ind; [done|].
  rewrite undo_all_snoc, filter_app, filter_cons, filter_nil, elem_of_undo.
  destruct (decide (ev_ticker e = t)) as [<-|Hne].
  - rewrite last_snoc. destruct (ev_action e); intuition congruence.
  - rewrite app_nil_r, <- IH. destruct (ev_action e); intuition congruence.
Qed.



(** A removal and an addition undone: before both events D is a member and
    C is not, between them C has joined, after them D has left. *)
Example point_in_time_remove_and_add :
  snapshot_tickers
    (build_sp500_history elements table_ABC
       [row_add (datetime 2023 6 1) "C" "Gamma"; row_remove (datetime 2023 6 8) "D" "Delta"]
       (datetime 2023 5 29) (datetime 2023 6 12)) =
  Ok [["A"; "B"; "C"]; ["A"; "B"; "C"; "D"]; ["A"; "B"; "D"]].
Proof. by vm_compute. Qed.


(** ** Queue consumption *)

Lemma filter_length_mono {A} (P Q : A → Prop) `{∀ x, Decision (P x), ∀ x, Decision (Q x)}
    (l : list A) :
  (∀ x, P x → Q x) → (length (filter P l) ≤ length (filter Q l))%nat.
Proof.
  intros HPQ. induction l as [|x l IH]; [done|].
  rewrite !filter_cons. destruct (decide (P x)) as [HP|HP].
  - rewrite decide_True by auto. simpl. lia.
  - destruct (decide (Q x)); simpl; lia.
Qed.

Lemma newer_split (d : Z) (log : list event) :
  date_descending log → newer d log ++ not_newer d log = log.
Proof.
  intros Hs. destruct (undo_newer_split d log ∅ []) as (p & Hu & Hq & _).
  rewrite undo_newer_sorted in Hu, Hq by done. simpl in *. by subst p.
Qed.

(** C6.  Over a whole build the pops, in the order they happen, followed by
    what is left of the queue are the sorted change log: the popped events
    are a prefix of it, so no entry is popped twice, and the working set at
    the end is the current membership with each popped event undone once.
    The events popped are those dated strictly after the earliest snapshot
    date (none when there is no snapshot), hence no more than those dated
    strictly after [start_date]. *)
Theorem monotonic_queue_consumption (iter : gset string → list string)
    (current_table : list (string * string)) (changes_table : list change_row)
    (start_date end_date : Z) (parsed : parse_state) :
  parse_tables current_table changes_table = Ok parsed →
  ∃ r, build_sp500_history iter current_table changes_table start_date end_date = Ok r ∧
    undone (final_state r) ++ queue (final_state r) = sort_reverse (change_log parsed) ∧
    constituents (final_state r) =
      undo_all (undone (final_state r)) (current_sp500 current_table) ∧
    (∀ s, last (weekly_snapshots r) = Some s →
       undone (final_state r) = newer (week_start s) (sort_reverse (change_log parsed))) ∧
    (weekly_snapshots r = [] → undone (final_state r) = []) ∧
    (length (undone (final_state r))
       ≤ length (newer start_date (sort_reverse (change_log parsed))))%nat.
Proof.
  intros Hp.
  destruct (build_spec iter current_table changes_table start_date end_date parsed Hp)
    as (r & Hb & Hsnaps & Hfinal).
  exists r. split; [done|]. rewrite Hfinal, Hsnaps, fmap_last.
  destruct (last (week_dates start_date end_date)) as [d|] eqn:Hlast; simpl.
  - pose proof Hlast as Hin.
    apply last_Some_elem_of, elem_of_week_dates in Hin as [[Hlo _] _].
    split; [apply newer_split, sort_reverse_date_descending|].
    split; [done|]. split; [by intros s [= <-]|].
    split; [intros Hnil%fmap_nil_inv; by rewrite Hnil in Hlast|].
    apply filter_length_mono. intros e. simpl. lia.
  - repeat split; try done. simpl. lia.
Qed.

Lemma monotonic_queue_consumption_witness :
  ∃ r, build_sp500_history elements table_ABCD changes_add_D
         (datetime 2023 5 1) (datetime 2023 7 3) = Ok r ∧
    undone (final_state r) ++ queue (final_state r) =
      [Event (datetime 2023 6 1) "D" ADD "Delta"] ∧
    constituents (final_state r) = undo_all (undone (final_state r)) (current_sp500 table_ABCD) ∧
    (∀ s, last (weekly_snapshots r) = Some s →
       undone (final_state r) = newer (week_start s) [Event (datetime 2023 6 1) "D" ADD "Delta"]) ∧
    (weekly_snapshots r = [] → undone (final_state r) = []) ∧
    (length (undone (final_state r))
       ≤ length (newer (datetime 2023 5 1) [Event (datetime 2023 6 1) "D" ADD "Delta"]))%nat.
Proof.
  refine (monotonic_queue_consumption elements table_ABCD changes_add_D
            (datetime 2023 5 1) (datetime 2023 7 3)
            (ParseState [Event (datetime 2023 6 1) "D" ADD "Delta"]
               (<["D" := "Delta"]> (dict_of_pairs table_ABCD))) _).
  vm_compute. reflexivity.
Defined.

(** ** Replaying the log forward *)

Lemma apply_undo (e : event) (members : gset string) :
  undo_effective [e] members → apply_event e (undo e members) = members.
Proof.
  unfold undo_effective, apply_event, undo. rewrite andb_true_r.
  destruct (ev_action e); intros Hin%bool_decide_unpack; apply set_eq; intros t.
  - rewrite elem_of_union, elem_of_difference, elem_of_singleton.
    destruct (decide (t = ev_ticker e)) as [->|Hne]; intuition congruence.
  - rewrite elem_of_difference, elem_of_union, elem_of_singleton.
    destruct (decide (t = ev_ticker e)) as [->|Hne]; intuition congruence.
Qed.

Lemma reapply_all_cons (e : event) (evs : list event) (members : gset string) :
  reapply_all (e :: evs) members = apply_event e (reapply_all evs members).
Proof. unfold reapply_all. by rewrite reverse_cons, foldl_app. Qed.

Lemma undo_all_cons (e : event) (evs : list event) (members : gset string) :
  undo_all (e :: evs) members = undo_all evs (undo e members).
Proof. done. Qed.

(** Undoing a list of events and re-applying it in the order of time leads
    back, as long as each undo took effect. *)
Lemma reapply_undo_all (evs : list event) (members : gset string) :
  undo_effective evs members → reapply_all evs (undo_all evs members) = members.
Proof.
  revert members. induction evs as [|e evs IH]; intros members; [done|].
  intros [He Hrest]%andb_prop_elim.
  rewrite reapply_all_cons, undo_all_cons, IH by done.
  apply apply_undo. simpl. rewrite andb_true_r. done.
Qed.

(** C1 (as amended).  For every snapshot of a build: when every undo made on
    the way from the current membership to the snapshot took effect (each
    undone ADD found its ticker in the working set, each undone REMOVE found
    it absent), re-applying the events dated after the snapshot's date to
    the snapshot's members, oldest first, gives back the current membership. *)
Theorem backward_replay_round_trip (current_table : list (string * string))
    (changes_table : list change_row) (start_date end_date : Z) (parsed : parse_state) :
  parse_tables current_table changes_table = Ok parsed →
  ∃ r, build_sp500_history elements current_table changes_table start_date end_date = Ok r ∧
    ∀ s, s ∈ weekly_snapshots r →
      let after := newer (week_start s) (sort_reverse (change_log parsed)) in
      undo_effective after (current_sp500 current_table) →
      reapply_all after (list_to_set (tickers s)) = current_sp500 current_table.
Proof.
  intros Hp.
  destruct (build_spec elements current_table changes_table start_date end_date parsed Hp)
    as (r & Hb & _). exists r. split; [done|]. intros s Hs after Heff.
  destruct (build_snapshot_elem elements _ _ _ _ parsed r s Hp Hb Hs) as [_ Heq].
  rewrite Heq. simpl. fold after. rewrite list_to_set_sorted_elements.
  by apply reapply_undo_all.
Qed.

Lemma backward_replay_round_trip_witness :
  ∃ r, build_sp500_history elements table_ABCD changes_add_D
         (datetime 2023 5 1) (datetime 2023 7 3) = Ok r ∧
    ∀ s, s ∈ weekly_snapshots r →
      let after := newer (week_start s) [Event (datetime 2023 6 1) "D" ADD "Delta"] in
      undo_effective after (current_sp500 table_ABCD) →
      reapply_all after (list_to_set (tickers s)) = current_sp500 table_ABCD.
Proof.
  refine (backward_replay_round_trip table_ABCD changes_add_D
            (datetime 2023 5 1) (datetime 2023 7 3)
            (ParseState [Event (datetime 2023 6 1) "D" ADD "Delta"]
               (<["D" := "Delta"]> (dict_of_pairs table_ABCD))) _).
  vm_compute. reflexivity.
Defined.

(** Without that condition the round trip fails: the current membership
    [{A, B, C}] with the event (2023-06-01, D, ADD) gives the snapshot
    [{A, B, C}] for 2023-05-01 (discarding the absent D changes nothing), and
    re-applying the ADD yields [{A, B, C, D}]. *)
Lemma round_trip_counterexample :
  let log := [Event (datetime 2023 6 1) "D" ADD "Delta"] in
  res_map change_log (parse_tables table_ABC changes_add_D) = Ok log ∧
  snapshot_tickers (build_sp500_history elements table_ABC changes_add_D
                      (datetime 2023 5 1) (datetime 2023 5 1)) = Ok [["A"; "B"; "C"]] ∧
  newer (datetime 2023 5 1) (sort_reverse log) = log ∧
  sorted (elements (reapply_all log (list_to_set ["A"; "B"; "C"]))) = ["A"; "B"; "C"; "D"] ∧
  sorted (elements (current_sp500 table_ABC)) = ["A"; "B"; "C"] ∧
  reapply_all log (list_to_set ["A"; "B"; "C"]) ≠ current_sp500 table_ABC.
Proof.
  repeat split; try (vm_compute; reflexivity).
  intros Heq%(f_equal (λ X, sorted (elements X))). vm_compute in Heq. discriminate.
Qed.

(** ** The order of the change log *)

Lemma StronglySorted_lookup_lt {A} (R : relation A) (l : list A) (i j : nat) (x y : A) :
  StronglySorted R l → (i < j)%nat → l !! i = Some x → l !! j = Some y → R x y.
Proof.
  intros Hs. revert i j. induction Hs as [|z l Hs IH Hall]; intros i j Hij Hi Hj.
  - by rewrite lookup_nil in Hi.
  - destruct j as [|j]; [lia|]. simpl in Hj. destruct i as [|i]; simpl in Hi.
    + injection Hi as ->. rewrite Forall_forall in Hall.
      apply Hall. by eapply list_elem_of_lookup_2.
    + apply (IH i j); [lia|done..].
Qed.

Lemma event_le_tie (e1 e2 : event) :
  cmp_le e1 e2 → ev_date e1 = ev_date e2 → cmp_le (tie_key e1) (tie_key e2).
Proof.
  unfold cmp_le, cmp_leb. cbv [cmp event_cmp event_key tie_key prod_cmp Z_cmp fst snd].
  intros Hle Heq. by rewrite Heq, Z.compare_refl in Hle.
Qed.

Lemma tie_le_ticker (e1 e2 : event) :
  cmp_le (tie_key e1) (tie_key e2) → String.le (ev_ticker e1) (ev_ticker e2).
Proof.
  unfold cmp_le, cmp_leb, String.le, String.leb.
  cbv [cmp tie_key prod_cmp string_cmp fst snd].
  by destruct (String.compare (ev_ticker e1) (ev_ticker e2)).
Qed.

(** C4 (as amended).  The sorted change log holds the parsed events, newest
    first; events of one date stand in descending order of the rest of the
    tuple (ticker, then action with REMOVE before ADD, then name), so in
    descending order of their tickers; the order of the input plays no part:
    two inputs with the same events give the same sorted log. *)
Theorem change_log_order (log : list event) :
  sort_reverse log ≡ₚ log ∧
  (∀ (i j : nat) (e1 e2 : event),
     (i < j)%nat → sort_reverse log !! i = Some e1 → sort_reverse log !! j = Some e2 →
     ev_date e2 ≤ ev_date e1 ∧
     (ev_date e1 = ev_date e2 →
      cmp_le (tie_key e2) (tie_key e1) ∧ String.le (ev_ticker e2) (ev_ticker e1))) ∧
  (∀ log', log' ≡ₚ log → sort_reverse log' = sort_reverse log).
Proof.
  split; [apply sort_reverse_perm|]. split; [|intros log'; apply sort_reverse_unique].
  intros i j e1 e2 Hij Hi Hj.
  pose proof (StronglySorted_lookup_lt _ _ i j e1 e2 (sort_reverse_sorted log) Hij Hi Hj)
    as Hle. unfold flip in Hle.
  split; [by apply event_le_date|]. intros Heq.
  assert (cmp_le (tie_key e2) (tie_key e1)) by (by apply event_le_tie).
  split; [done|]. by apply tie_le_ticker.
Qed.

Lemma change_log_order_witness :
  ev_date (Event (datetime 2023 6 1) "A" ADD "Alpha")
    ≤ ev_date (Event (datetime 2023 6 1) "B" ADD "Beta") ∧
  (ev_date (Event (datetime 2023 6 1) "B" ADD "Beta")
     = ev_date (Event (datetime 2023 6 1) "A" ADD "Alpha") →
   cmp_le (tie_key (Event (datetime 2023 6 1) "A" ADD "Alpha"))
          (tie_key (Event (datetime 2023 6 1) "B" ADD "Beta")) ∧
   String.le "A" "B").
Proof.
  apply (proj1 (proj2 (change_log_order
                         [Event (datetime 2023 6 1) "A" ADD "Alpha";
                          Event (datetime 2023 6 1) "B" ADD "Beta"]))
           0%nat 1%nat); [lia|reflexivity|reflexivity].
Defined.

(** Ties are not kept in input order: a row adding ["A,B"] is parsed as A
    then B, and the sorted log lists B before A. *)
Lemma tie_order_counterexample :
  let a := Event (datetime 2023 6 1) "A" ADD "Alpha" in
  let b := Event (datetime 2023 6 1) "B" ADD "Beta" in
  res_map change_log (parse_tables [] [row_add (datetime 2023 6 1) "A,B" "Alpha,Beta"])
    = Ok [a; b] ∧
  ev_date a = ev_date b ∧
  sort_reverse [a; b] = [b; a].
Proof. by vm_compute. Qed.

(** ** Parsing a change row *)

Lemma foldl_record_event (date : Z) (act : action) (pairs : list (string * string))
    (st : parse_state) :
  change_log (foldl (record_event date act) st pairs) =
    change_log st ++ ((λ tn, Event date tn.1 act tn.2) <$> pairs) ∧
  ticker_to_name (foldl (record_event date act) st pairs) =
    foldl (λ m tn, <[tn.1 := tn.2]> m) (ticker_to_name st) pairs.
Proof.
  revert st. induction pairs as [|tn pairs IH]; intros st; simpl.
  - by rewrite app_nil_r.
  - destruct (IH (record_event date act st tn)) as [-> ->]. simpl.
    by rewrite <- app_assoc.
Qed.

Lemma zip_fst_take {A B} (l : list A) (k : list B) :
  (zip l k).*1 = take (min (length l) (length k)) l.
Proof.
  revert k. induction l as [|x l IH]; intros [|y k]; simpl; [done..|].
  by rewrite IH.
Qed.

Lemma zip_snd_take {A B} (l : list A) (k : list B) :
  (zip l k).*2 = take (min (length l) (length k)) k.
Proof.
  revert k. induction l as [|x l IH]; intros [|y k]; simpl; [done..|].
  by rewrite IH.
Qed.

Lemma foldl_insert_other (pairs : list (string * string)) (m : gmap string string)
    (t : string) :
  t ∉ pairs.*1 → foldl (λ m tn, <[tn.1 := tn.2]> m) m pairs !! t = m !! t.
Proof.
  revert m. induction pairs as [|tn pairs IH]; intros m Hnot; simpl; [done|].
  simpl in Hnot. apply not_elem_of_cons in Hnot as [Hne Hnot].
  rewrite IH by done. by rewrite lookup_insert_ne.
Qed.

(** [s.split(',')] never gives an empty list. *)
Lemma split_length_pos (sep : ascii) (s : string) : (0 < length (split sep s))%nat.
Proof.
  unfold split. generalize EmptyString as cur. induction s as [|c s IH]; intros cur; simpl.
  - lia.
  - destruct (Ascii.eqb c sep); simpl; [lia|apply IH].
Qed.

(** C7.  A side of a change row whose ticker cell and name cell are both
    strings never raises, whatever the lengths of the two comma-split lists:
    it appends [min] of the two lengths events, pairing the cleaned tickers
    and names position by position; a ticker that only stands beyond that
    length is in none of these events and its name entry is left as it was.
    A row with both sides filled so contributes the sum of the two minima. *)
Theorem mismatched_lengths_truncate (date : Z) (act : action)
    (tickers names tickers' names' : string) (st : parse_state) :
  let ts := (λ t, upper (strip t)) <$> split comma tickers in
  let ns := strip <$> split comma names in
  let n := min (length (split comma tickers)) (length (split comma names)) in
  let n' := min (length (split comma tickers')) (length (split comma names')) in
  (∃ st' evs, parse_side date act (Some tickers) (Some names) st = Ok st' ∧
     change_log st' = change_log st ++ evs ∧
     length evs = n ∧
     ev_ticker <$> evs = take n ts ∧
     ev_name <$> evs = take n ns ∧
     Forall (λ e, ev_date e = date ∧ ev_action e = act) evs ∧
     (∀ t, t ∉ take n ts →
           (t ∉ ev_ticker <$> evs) ∧ ticker_to_name st' !! t = ticker_to_name st !! t)) ∧
  (∃ st'', parse_row st (ChangeRow (Some date) (Some tickers) (Some names)
                            (Some tickers') (Some names')) = Ok st'' ∧
     length (change_log st'') = (length (change_log st) + n + n')%nat).
Proof.
  intros ts ns n n'.
  assert (length (side_pairs tickers names) = n) as Hlen.
  { unfold side_pairs. by rewrite length_zip_with, !length_fmap. }
  assert ((side_pairs tickers names).*1 = take n ts) as Hfst.
  { unfold side_pairs. by rewrite zip_fst_take, !length_fmap. }
  assert ((side_pairs tickers names).*2 = take n ns) as Hsnd.
  { unfold side_pairs. by rewrite zip_snd_take, !length_fmap. }
  destruct (foldl_record_event date act (side_pairs tickers names) st) as [Hlog Hnames].
  split.
  - eexists _, _. split; [reflexivity|]. split; [exact Hlog|].
    split; [by rewrite length_fmap|].
    split; [by rewrite <- list_fmap_compose|].
    split; [by rewrite <- list_fmap_compose|].
    split; [by apply Forall_fmap, Forall_true|].
    intros t Ht. rewrite <- list_fmap_compose. split; [by rewrite <- Hfst in Ht|].
    rewrite Hnames. apply foldl_insert_other. by rewrite Hfst.
  - eexists. split; [reflexivity|].
    destruct (foldl_record_event date REMOVE (side_pairs tickers' names')
                (foldl (record_event date ADD) st (side_pairs tickers names))) as [-> _].
    destruct (foldl_record_event date ADD (side_pairs tickers names) st) as [-> _].
    rewrite !length_app, !length_fmap. unfold side_pairs at 2.
    rewrite Hlen, length_zip_with, !length_fmap. done.
Qed.

Lemma mismatched_lengths_truncate_witness :
  ∃ st' evs,
    parse_side (datetime 2023 6 1) ADD (Some "aaa, bbb ,ccc") (Some "Alpha, Beta")
      (ParseState [] ∅) = Ok st' ∧
    change_log st' = [] ++ evs ∧
    length evs = 2%nat ∧
    ev_ticker <$> evs = ["AAA"; "BBB"] ∧
    ev_name <$> evs = ["Alpha"; "Beta"] ∧
    Forall (λ e, ev_date e = datetime 2023 6 1 ∧ ev_action e = ADD) evs ∧
    (∀ t, t ∉ ["AAA"; "BBB"] →
          (t ∉ ev_ticker <$> evs) ∧ ticker_to_name st' !! t = (∅ : gmap string string) !! t).
Proof.
  exact (proj1 (mismatched_lengths_truncate (datetime 2023 6 1) ADD
                  "aaa, bbb ,ccc" "Alpha, Beta" "" "" (ParseState [] ∅))).
Defined.

(** Three tickers against two names: two events, the third ticker dropped. *)
Example mismatched_lengths_example :
  res_map change_log
    (parse_tables [] [row_add (datetime 2023 6 1) "aaa, bbb ,ccc" "Alpha, Beta"]) =
  Ok [Event (datetime 2023 6 1) "AAA" ADD "Alpha";
      Event (datetime 2023 6 1) "BBB" ADD "Beta"].
Proof. by vm_compute. Qed.

(** A ticker cell with a name cell that is no string does raise. *)
Example names_not_a_string_raises :
  res_map change_log
    (parse_tables [] [ChangeRow (Some (datetime 2023 6 1)) (Some "AAA") None None None]) =
  Raise AttributeError.
Proof. by vm_compute. Qed.

(** A row whose date does not parse is skipped. *)
Example unparseable_date_skipped :
  res_map change_log
    (parse_tables [] [ChangeRow None (Some "AAA") (Some "Alpha") None None]) = Ok [].
Proof. by vm_compute. Qed.

(** ** Names of a snapshot *)

Lemma record_event_merged before date act st tn :
  names_merged before st → names_merged before (record_event date act st tn).
Proof.
  intros Hst t. unfold merged_name, record_event. simpl.
  rewrite filter_app, filter_cons, filter_nil. simpl.
  destruct (decide (tn.1 = t)) as [->|Hne].
  - by rewrite last_snoc, lookup_insert_eq.
  - rewrite app_nil_r, lookup_insert_ne by done. apply Hst.
Qed.

Lemma parse_side_merged before date act tickers names st st' :
  names_merged before st → parse_side date act tickers names st = Ok st' →
  names_merged before st'.
Proof.
  intros Hst. unfold parse_side. destruct tickers as [ts|]; [|by intros [= <-]].
  destruct names as [ns|]; [|done]. intros [= <-].
  revert st Hst. induction (side_pairs ts ns) as [|tn pairs IH]; intros st Hst; [done|].
  simpl. by apply IH, record_event_merged.
Qed.

Lemma parse_changes_merged before rows st st' :
  names_merged before st → parse_changes rows st = Ok st' → names_merged before st'.
Proof.
  revert st. induction rows as [|row rows IH]; intros st Hst; simpl; [by intros [= <-]|].
  destruct (parse_row st row) as [st1|] eqn:Hrow; simpl; [|done].
  apply IH. unfold parse_row in Hrow. destruct (row_date row) as [date|]; [|by injection Hrow as <-].
  destruct (parse_side date ADD _ _ st) as [st2|] eqn:Hadd; simpl in Hrow; [|done].
  eapply parse_side_merged; [|exact Hrow]. by eapply parse_side_merged.
Qed.

Lemma undo_all_elem_of (evs : list event) (members : gset string) (t : string) :
  t ∈ undo_all evs members → t ∈ members ∨ t ∈ ev_ticker <$> evs.
Proof.
  revert members. induction evs as [|e evs IH]; intros members; [by left|].
  rewrite undo_all_cons. intros [Hin|Hin]%IH.
  - apply elem_of_undo in Hin. rewrite fmap_cons, elem_of_cons.
    destruct (ev_action e).
    + destruct Hin as [? _]. by left.
    + destruct Hin as [?| ->]; [by left|by right; left].
  - right. rewrite fmap_cons. by apply elem_of_cons; right.
Qed.

Lemma foldl_insert_is_Some (rows : list (string * string)) (m : gmap string string)
    (t : string) :
  t ∈ rows.*1 ∨ is_Some (m !! t) →
  is_Some (foldl (λ m kv, <[kv.1 := kv.2]> m) m rows !! t).
Proof.
  revert m. induction rows as [|kv rows IH]; intros m; simpl.
  - intros [Hin|?]; [|done]. by apply elem_of_nil in Hin.
  - intros [Hin|Hm]; apply IH.
    + apply elem_of_cons in Hin as [->|?]; [right|by left].
      rewrite lookup_insert_eq. by eexists.
    + right. destruct (decide (kv.1 = t)) as [->|Hne].
      * rewrite lookup_insert_eq. by eexists.
      * by rewrite lookup_insert_ne.
Qed.

Lemma merged_name_is_Some (before : gmap string string) (log : list event) (t : string) :
  t ∈ ev_ticker <$> log ∨ is_Some (before !! t) → is_Some (merged_name before log t).
Proof.
  unfold merged_name.
  destruct (last (filter (λ e, ev_ticker e = t) log)) as [e|] eqn:Hlast; [by eexists|].
  apply last_None in Hlast. intros [Hin|?]; [|done].
  apply list_elem_of_fmap in Hin as (e & -> & He).
  assert (e ∈ filter (λ e', ev_ticker e' = ev_ticker e) log) as Hf
    by (by apply list_elem_of_filter).
  rewrite Hlast in Hf. by apply elem_of_nil in Hf.
Qed.

Lemma dict_of_pairs_lookup (rows : list (string * string)) (t : string) :
  dict_of_pairs rows !! t = snd <$> last (filter (λ kv, kv.1 = t) rows).
Proof.
  unfold dict_of_pairs. induction rows as [|kv rows IH] using rev_ind; [done|].
  rewrite foldl_app, filter_app, filter_cons, filter_nil. simpl.
  destruct (decide (kv.1 = t)) as [<-|Hne].
  - by rewrite last_snoc, lookup_insert_eq.
  - by rewrite app_nil_r, lookup_insert_ne.
Qed.

(** C8 (as amended).  In every snapshot of a build the names list is as
    long as the tickers list and its entry at a position is
    [ticker_to_name.get(t, "NA")] for the ticker [t] at that position.  The
    merged mapping gives a ticker the name of its last parsed event and, when
    no event names it, its name in the last row of the current table that
    lists it.  Every ticker of a snapshot has an entry in it, so the fallback
    (the string ["NA"]) is never taken: a ticker that only the change table
    knows carries the name of its change row, be it empty. *)
Theorem snapshot_names_aligned (iter : gset string → list string)
    (current_table : list (string * string)) (changes_table : list change_row)
    (start_date end_date : Z) (parsed : parse_state) :
  (∀ members, iter members ≡ₚ elements members) →
  parse_tables current_table changes_table = Ok parsed →
  ∃ r, build_sp500_history iter current_table changes_table start_date end_date = Ok r ∧
    (∀ s, s ∈ weekly_snapshots r →
       length (names s) = length (tickers s) ∧
       ∀ (i : nat) (t : string), tickers s !! i = Some t →
         names s !! i = Some (default "NA" (ticker_to_name parsed !! t)) ∧
         is_Some (ticker_to_name parsed !! t)) ∧
    (∀ t, ticker_to_name parsed !! t =
          match last (filter (λ e, ev_ticker e = t) (change_log parsed)) with
          | Some e => Some (ev_name e)
          | None => snd <$> last (filter (λ kv, kv.1 = t) current_table)
          end).
Proof.
  intros Hiter Hp.
  assert (names_merged (dict_of_pairs current_table) parsed) as Hm.
  { eapply parse_changes_merged; [|exact Hp]. by intros t. }
  destruct (build_spec iter current_table changes_table start_date end_date parsed Hp)
    as (r & Hb & _). exists r. split; [done|]. split.
  - intros s Hs.
    destruct (build_snapshot_elem iter _ _ _ _ parsed r s Hp Hb Hs) as [_ Heq].
    rewrite Heq. simpl. split; [by rewrite length_fmap|].
    intros i t Hi. split; [by rewrite list_lookup_fmap, Hi|].
    apply list_elem_of_lookup_2 in Hi. rewrite sorted_perm, Hiter, elem_of_elements in Hi.
    rewrite Hm. apply merged_name_is_Some.
    apply undo_all_elem_of in Hi as [Hcur|Hev].
    + right. apply foldl_insert_is_Some. left. by apply elem_of_list_to_set in Hcur.
    + left. apply list_elem_of_fmap in Hev as (e & -> & He).
      apply list_elem_of_filter in He as [_ He].
      rewrite sort_reverse_perm in He. apply list_elem_of_fmap. by exists e.
  - intros t. rewrite Hm. unfold merged_name.
    destruct (last _); [done|apply dict_of_pairs_lookup].
Qed.

Lemma snapshot_names_aligned_witness :
  ∃ r, build_sp500_history elements table_ABC
         [row_remove (datetime 2023 6 1) "D" "Delta"]
         (datetime 2023 5 1) (datetime 2023 7 3) = Ok r ∧
    (∀ s, s ∈ weekly_snapshots r →
       length (names s) = length (tickers s) ∧
       ∀ (i : nat) (t : string), tickers s !! i = Some t →
         names s !! i =
           Some (default "NA" ((<["D" := "Delta"]> (dict_of_pairs table_ABC)) !! t)) ∧
         is_Some ((<["D" := "Delta"]> (dict_of_pairs table_ABC)) !! t)) ∧
    (∀ t, (<["D" := "Delta"]> (dict_of_pairs table_ABC)) !! t =
          match last (filter (λ e, ev_ticker e = t)
                        [Event (datetime 2023 6 1) "D" REMOVE "Delta"]) with
          | Some e => Some (ev_name e)
          | None => snd <$> last (filter (λ kv, kv.1 = t) table_ABC)
          end).
Proof.
  refine (snapshot_names_aligned elements table_ABC
            [row_remove (datetime 2023 6 1) "D" "Delta"]
            (datetime 2023 5 1) (datetime 2023 7 3)
            (ParseState [Event (datetime 2023 6 1) "D" REMOVE "Delta"]
               (<["D" := "Delta"]> (dict_of_pairs table_ABC))) _ _).
  - intros members. reflexivity.
  - vm_compute. reflexivity.
Defined.

(** The value for a ticker without an entry is the string ["NA"], and a
    build never needs it: a ticker that comes from a change row alone, here
    with an empty name cell, gets that (empty) name and not a sentinel. *)
Lemma unknown_sentinel_counterexample :
  names (make_snapshot elements ∅ (datetime 2023 5 1) {["D"]}) = ["NA"] ∧
  names (make_snapshot elements ∅ (datetime 2023 5 1) {["D"]}) ≠ ["unknown"] ∧
  res_map (λ r, (λ s, (tickers s, names s)) <$> weekly_snapshots r)
    (build_sp500_history elements table_ABC [row_remove (datetime 2023 6 1) "D" ""]
       (datetime 2023 5 1) (datetime 2023 5 1)) =
  Ok [(["A"; "B"; "C"; "D"], ["Alpha"; "Beta"; "Gamma"; ""])].
Proof. split; [by vm_compute|]. split; [|by vm_compute]. vm_compute. discriminate. Qed.

(** The fallback of [ticker_to_name.get] is never taken: every ticker of a
    snapshot is a ticker of the current table or of a parsed event, and the
    parsing loop records a name for each of these. *)
Lemma snapshot_tickers_all_named (current_table : list (string * string))
    (changes_table : list change_row) (start_date end_date : Z)
    (parsed : parse_state) (r : build_result) (s : snapshot) (t : string) :
  parse_tables current_table changes_table = Ok parsed →
  build_sp500_history elements current_table changes_table start_date end_date = Ok r →
  s ∈ weekly_snapshots r → t ∈ tickers s →
  is_Some (ticker_to_name parsed !! t).
Proof.
  intros Hp Hb Hs Ht.
  destruct (build_snapshot_elem elements _ _ _ _ parsed r s Hp Hb Hs) as [_ Heq].
  rewrite Heq in Ht. simpl in Ht. apply elem_of_sorted_elements in Ht.
  assert (names_merged (dict_of_pairs current_table) parsed) as Hm.
  { eapply parse_changes_merged; [|exact Hp]. by intros t'. }
  rewrite Hm. apply merged_name_is_Some.
  apply undo_all_elem_of in Ht as [Hcur|Hev].
  - right. apply foldl_insert_is_Some. left.
    by apply elem_of_list_to_set in Hcur.
  - left. apply list_elem_of_fmap in Hev as (e & -> & He).
    apply list_elem_of_filter in He as [_ He].
    rewrite sort_reverse_perm in He. apply list_elem_of_fmap. by exists e.
Qed.

(** A ticker that comes back through an undone removal carries the name of
    its change row. *)
Example removed_ticker_named :
  res_map (λ r, (λ s, (tickers s, names s)) <$> last (weekly_snapshots r))
    (build_sp500_history elements table_ABC
       [row_remove (datetime 2023 6 1) "D" "Delta"]
       (datetime 2023 5 1) (datetime 2023 7 3)) =
  Ok (Some (["A"; "B"; "C"; "D"], ["Alpha"; "Beta"; "Gamma"; "Delta"])).
Proof. by vm_compute. Qed.

(** ** Determinism *)

(** C9.  The only thing that can differ between two runs over the same
    tables is the order in which a set hands out its elements; whatever
    these orders are, the two runs give the same result (or raise the same
    exception): same snapshot dates, ticker lists and name lists. *)
Theorem build_deterministic (iter1 iter2 : gset string → list string)
    (current_table : list (string * string)) (changes_table : list change_row)
    (start_date end_date : Z) :
  (∀ members, iter1 members ≡ₚ elements members) →
  (∀ members, iter2 members ≡ₚ elements members) →
  build_sp500_history iter1 current_table changes_table start_date end_date =
  build_sp500_history iter2 current_table changes_table start_date end_date.
Proof.
  intros H1 H2. unfold build_sp500_history.
  destruct (parse_tables current_table changes_table) as [parsed|]; simpl; [|done].
  f_equal. rewrite !weekly_loop_spec. f_equal.
  apply list_fmap_ext. intros _ d _. unfold make_snapshot.
  by rewrite (sorted_unique (iter1 _) (iter2 _)) by (by rewrite H1, H2).
Qed.

Lemma build_deterministic_witness :
  build_sp500_history elements table_ABCD changes_add_D
    (datetime 2023 5 1) (datetime 2023 7 3) =
  build_sp500_history (λ members, reverse (elements members)) table_ABCD changes_add_D
    (datetime 2023 5 1) (datetime 2023 7 3).
Proof.
  apply build_deterministic.
  - intros members. reflexivity.
  - intros members. apply reverse_Permutation.
Defined.

(** ** Top-N selection *)

Global Instance tally_le_total : Total tally_le.
Proof. intros p q. unfold tally_le. apply (total cmp_le). Qed.

Global Instance tally_le_trans : Transitive tally_le.
Proof. intros p q r. unfold tally_le. apply (transitivity (R:=cmp_le)). Qed.

Lemma tally_le_order (p q : string * nat) : tally_le p q ↔ selection_order p q.
Proof.
  unfold tally_le, selection_order, cmp_le, cmp_leb, String.le, String.leb.
  cbv [cmp tally_key prod_cmp Z_cmp string_cmp fst snd].
  destruct p as [t1 c1], q as [t2 c2]; simpl.
  destruct (Z.compare_spec (- Z.of_nat c1) (- Z.of_nat c2)) as [Heq|Hlt|Hgt].
  - assert (c1 = c2) as -> by lia. split; [by right|]. intros [?|[_ ?]]; [lia|done].
  - split; [intros _; left; lia|done].
  - split; [done|]. intros [?|[? _]]; lia.
Qed.

Lemma merge_sort_tally_sorted (tally : list (string * nat)) :
  StronglySorted selection_order (merge_sort tally_le tally).
Proof.
  induction (StronglySorted_merge_sort tally_le tally) as [|p l Hl IH Hall];
    constructor; [done|].
  eapply Forall_impl; [exact Hall|]. intros q. apply tally_le_order.
Qed.

(** C3.  The selection has at most [top_n] pairs (at most five for the
    configured [TOP_N_WEEKLY]), listed by descending count with equal counts
    by ascending ticker; they are pairs of the tally, and every pair left out
    comes after each selected one in that order.  With "ZZZ" and "AAA" both
    at count 3 and [top_n = 1] the selection is [[("AAA", 3)]]. *)
Theorem top_selection_bound (top_n : nat) (tally : list (string * nat)) :
  (length (top_selection top_n tally) ≤ top_n)%nat ∧
  (length (top_selection TOP_N_WEEKLY tally) ≤ 5)%nat ∧
  StronglySorted selection_order (top_selection top_n tally) ∧
  (∃ rest, top_selection top_n tally ++ rest ≡ₚ tally ∧
     ∀ p q, p ∈ top_selection top_n tally → q ∈ rest → selection_order p q) ∧
  top_selection 1 [("ZZZ", 3%nat); ("AAA", 3%nat)] = [("AAA", 3%nat)].
Proof.
  unfold top_selection.
  split; [rewrite length_take; lia|].
  split; [rewrite length_take; unfold TOP_N_WEEKLY; lia|].
  pose proof (merge_sort_tally_sorted tally) as Hs.
  rewrite <- (take_drop top_n (merge_sort tally_le tally)) in Hs.
  split; [by eapply StronglySorted_app_1_l|].
  split; [|by vm_compute].
  exists (drop top_n (merge_sort tally_le tally)). split.
  - by rewrite take_drop, merge_sort_Permutation.
  - intros p q Hp Hq. by eapply (StronglySorted_app_1_elem_of selection_order).
Qed.

Lemma top_selection_bound_witness :
  selection_order ("AAA", 3%nat) ("ZZZ", 3%nat).
Proof.
  destruct (top_selection_bound 1 [("ZZZ", 3%nat); ("AAA", 3%nat)])
    as (_ & _ & _ & (rest & Hperm & Hrest) & Hsel).
  apply Hrest.
  - rewrite Hsel. apply list_elem_of_here.
  - assert (rest ≡ₚ [("ZZZ", 3%nat)]) as ->; [|apply list_elem_of_here].
    rewrite Hsel in Hperm. simpl in Hperm.
    apply (Permutation_cons_inv (a:=("AAA", 3%nat))).
    rewrite Hperm. apply Permutation_swap.
Defined.

(** ** calculate_metrics *)

Lemma years_nonzero {A} (x : A) (xs : list A) : Qeq_bool (years (x :: xs)) 0 = false.
Proof.
  destruct (Qeq_bool (years (x :: xs)) 0) eqn:E; [|done].
  apply Qeq_bool_eq in E. unfold years, weeks_per_year in E.
  unfold Qeq, Qdiv, Qmult, Qinv, inject_Z in E. simpl in E. lia.
Qed.

Section BacktesterFacts.
Variable F : Type.
Variables (fone : F) (fadd fsub fmul fdiv fmax : F → F → F).
Variables (fpow : F → Q → F) (fsqrt : F → F) (of_Q : Q → F).
Variables (series_mean series_std series_min : list F → F).
Variable isnan : F → bool.

Local Abbreviation metrics_of :=
  (calculate_metrics F fone fadd fsub fmul fdiv fmax fpow fsqrt of_Q
     series_mean series_std series_min isnan).

Lemma scan_length (op : F → F → F) (acc : option F) (series : list F) :
  length (scan F isnan op acc series) = length series.
Proof.
  revert acc. induction series as [|x rest IH]; intros acc; simpl; [done|].
  destruct (isnan x); simpl; by rewrite IH.
Qed.

Lemma cumulate_last_is_Some (op : F → F → F) (x : F) (xs : list F) :
  is_Some (last (cumulate F isnan op (x :: xs))).
Proof.
  destruct (last (cumulate F isnan op (x :: xs))) eqn:E; [by eexists|].
  apply last_None, (f_equal length) in E.
  unfold cumulate in E. rewrite scan_length in E. done.
Qed.

(** C10.  On the empty series [calculate_metrics] raises: [iloc[-1]] has
    nothing to index, and the division by [years = 0 / 52] would raise as
    well.  On a series of at least one return [years] is not zero, the
    division [1 / years] succeeds and a metrics record is returned. *)
Theorem calculate_metrics_needs_returns (risk_free_rate : Q) :
  metrics_of [] risk_free_rate = Raise IndexError ∧
  py_div 1 (years (@nil F)) = Raise ZeroDivisionError ∧
  ∀ (x : F) (xs : list F),
    ∃ exponent total_return m,
      py_div 1 (years (x :: xs)) = Ok exponent ∧
      last (cumulate F isnan fmul (fadd fone <$> x :: xs)) = Some total_return ∧
      metrics_of (x :: xs) risk_free_rate = Ok m ∧
      cagr F m = fsub (fpow total_return exponent) fone.
Proof.
  split; [done|]. split; [done|]. intros x xs.
  destruct (cumulate_last_is_Some fmul (fadd fone x) (fadd fone <$> xs)) as [total Htotal].
  exists (1 / years (x :: xs))%Q, total. eexists.
  assert (py_div 1 (years (x :: xs)) = Ok (1 / years (x :: xs))%Q) as Hdiv.
  { unfold py_div. by rewrite years_nonzero. }
  split; [done|]. split; [done|].
  unfold calculate_metrics. rewrite Hdiv. unfold iloc_last.
  change (fadd fone <$> x :: xs) with (fadd fone x :: (fadd fone <$> xs)).
  by rewrite Htotal.
Qed.
End BacktesterFacts.

(** * Further properties of the scripts *)

(** ** The parsing loop in closed form *)

Lemma record_names_app (m : gmap string string) (l1 l2 : list event) :
  record_names m (l1 ++ l2) = record_names (record_names m l1) l2.
Proof. apply foldl_app. Qed.

Lemma parse_side_closed (date : Z) (act : action) (tickers names : option string)
    (st : parse_state) :
  parse_side date act tickers names st =
  if side_wf tickers names
  then Ok (ParseState (change_log st ++ side_events date act tickers names)
             (record_names (ticker_to_name st) (side_events date act tickers names)))
  else Raise AttributeError.
Proof.
  destruct st as [log m]. destruct tickers as [ts|]; simpl.
  - destruct names as [ns|]; simpl; [|done].
    destruct (foldl_record_event date act (side_pairs ts ns) (ParseState log m))
      as [Hlog Hnames]. simpl in *.
    destruct (foldl (record_event date act) (ParseState log m) (side_pairs ts ns))
      as [log' m']. simpl in *. subst. unfold record_names.
    by rewrite foldl_fmap.
  - by rewrite app_nil_r.
Qed.

Lemma parse_row_closed (row : change_row) (st : parse_state) :
  parse_row st row =
  if row_wf row
  then Ok (ParseState (change_log st ++ row_events row)
             (record_names (ticker_to_name st) (row_events row)))
  else Raise AttributeError.
Proof.
  unfold parse_row, row_wf, row_events. destruct (row_date row) as [date|].
  - rewrite parse_side_closed.
    destruct (side_wf (row_added_tickers row) (row_added_names row)); simpl; [|done].
    rewrite parse_side_closed. simpl.
    destruct (side_wf (row_removed_tickers row) (row_removed_names row)); simpl; [|done].
    by rewrite record_names_app, app_assoc.
  - destruct st. simpl. by rewrite app_nil_r.
Qed.

Lemma parse_changes_closed (rows : list change_row) (st : parse_state) :
  parse_changes rows st =
  if forallb row_wf rows
  then Ok (ParseState (change_log st ++ rows ≫= row_events)
             (record_names (ticker_to_name st) (rows ≫= row_events)))
  else Raise AttributeError.
Proof.
  revert st. induction rows as [|row rows IH]; intros st.
  - destruct st. simpl. by rewrite app_nil_r.
  - rewrite bind_cons. cbn [parse_changes forallb].
    rewrite parse_row_closed. destruct (row_wf row); [|done].
    cbn [res_bind andb]. rewrite IH. destruct (forallb row_wf rows); [|done].
    cbn [change_log ticker_to_name]. by rewrite record_names_app, app_assoc.
Qed.

(** X1.  When the change table parses, the change log lists the events of
    the rows in the order of the rows, the additions of a row before its
    removals and each side in the order of its cells, and the name mapping is
    the one of the current table with the names of these events recorded in
    that order. *)
Theorem parse_tables_events (current_table : list (string * string))
    (changes_table : list change_row) (parsed : parse_state) :
  parse_tables current_table changes_table = Ok parsed →
  change_log parsed = changes_table ≫= row_events ∧
  ticker_to_name parsed =
    record_names (dict_of_pairs current_table) (changes_table ≫= row_events).
Proof.
  unfold parse_tables. rewrite parse_changes_closed.
  destruct (forallb row_wf changes_table); [|done]. by intros [= <-].
Qed.

Lemma parse_tables_events_witness :
  change_log (ParseState [Event (datetime 2023 6 1) "D" ADD "Delta"]
                (<["D" := "Delta"]> (dict_of_pairs table_ABC)))
    = changes_add_D ≫= row_events ∧
  ticker_to_name (ParseState [Event (datetime 2023 6 1) "D" ADD "Delta"]
                    (<["D" := "Delta"]> (dict_of_pairs table_ABC)))
    = record_names (dict_of_pairs table_ABC) (changes_add_D ≫= row_events).
Proof.
  apply (parse_tables_events table_ABC changes_add_D). vm_compute. reflexivity.
Defined.

(** X2.  On a change table whose date cells all hold a text (each either
    parses to a date or makes [pd.to_datetime] raise), parsing fails exactly
    when some row with a parsed date has a tickers cell that is a string
    beside a names cell that is not; the exception is then an
    [AttributeError], and no other one is ever raised. *)
Theorem parse_tables_raises_iff (current_table : list (string * string))
    (changes_table : list change_row) :
  (parse_tables current_table changes_table = Raise AttributeError ↔
   ∃ row, row ∈ changes_table ∧ row_wf row = false) ∧
  (∀ e, parse_tables current_table changes_table = Raise e → e = AttributeError).
Proof.
  unfold parse_tables. rewrite parse_changes_closed.
  destruct (forallb row_wf changes_table) eqn:Hall.
  - split; [|done]. split; [done|]. intros (row & Hin & Hwf).
    apply Is_true_true, forallb_True in Hall. rewrite Forall_forall in Hall.
    specialize (Hall row Hin). by rewrite Hwf in Hall.
  - split; [|by intros e [= <-]]. split; [|done]. intros _.
    apply not_true_iff_false in Hall.
    rewrite <- Is_true_true, forallb_True in Hall.
    apply not_Forall_Exists in Hall; [|apply _].
    apply Exists_exists in Hall as (row & Hin & Hwf). exists row. split; [done|].
    simpl in Hwf. by destruct (row_wf row); [destruct Hwf|].
Qed.

(** X3.  A row on whose date cell [pd.to_datetime] raises, and a row with
    a parsed date but no tickers cell that is a string, leaves no trace:
    parsing the table without these rows gives the same result. *)
Theorem parse_skips_empty_rows (current_table : list (string * string))
    (changes_table : list change_row) :
  parse_tables current_table
    (filter (λ row, is_Some (row_date row) ∧
                    (is_Some (row_added_tickers row) ∨ is_Some (row_removed_tickers row)))
       changes_table) =
  parse_tables current_table changes_table.
Proof.
  unfold parse_tables. generalize (ParseState [] (dict_of_pairs current_table)).
  induction changes_table as [|row rows IH]; intros st; [done|].
  rewrite filter_cons. destruct (decide _) as [Hrow|Hrow]; simpl.
  - destruct (parse_row st row); simpl; [apply IH|done].
  - rewrite IH. replace (parse_row st row) with (Ok st); [done|].
    unfold parse_row. destruct (row_date row) as [date|]; [|done].
    destruct (row_added_tickers row), (row_removed_tickers row); simpl; try done;
      exfalso; apply Hrow; split; eauto.
Qed.

(** ** Normalised tickers and names *)

Lemma upper_char_idemp (c : ascii) : upper_char (upper_char c) = upper_char c.
Proof. by destruct c as [[] [] [] [] [] [] [] []]. Qed.

Lemma isspace_upper_char (c : ascii) : isspace (upper_char c) = isspace c.
Proof. by destruct c as [[] [] [] [] [] [] [] []]. Qed.

Lemma upper_idemp (s : string) : upper (upper s) = upper s.
Proof. induction s as [|c s IH]; simpl; [done|]. by rewrite upper_char_idemp, IH. Qed.

Lemma list_of_string_inj (s1 s2 : string) :
  String.list_ascii_of_string s1 = String.list_ascii_of_string s2 → s1 = s2.
Proof.
  intros Heq. rewrite <- (String.string_of_list_ascii_of_string s1),
    <- (String.string_of_list_ascii_of_string s2). by rewrite Heq.
Qed.

Lemma list_of_rev_app (s a : string) :
  String.list_ascii_of_string (String.rev_app s a) =
  reverse (String.list_ascii_of_string s) ++ String.list_ascii_of_string a.
Proof.
  revert a. induction s as [|c s IH]; intros a; simpl; [done|].
  rewrite IH, reverse_cons, <- app_assoc. done.
Qed.

Lemma list_of_rev (s : string) :
  String.list_ascii_of_string (String.rev s) = reverse (String.list_ascii_of_string s).
Proof. unfold String.rev. rewrite list_of_rev_app. simpl. by rewrite app_nil_r. Qed.

Lemma list_of_lstrip (s : string) :
  String.list_ascii_of_string (lstrip s) = drop_spaces (String.list_ascii_of_string s).
Proof. induction s as [|c s IH]; simpl; [done|]. by destruct (isspace c). Qed.

Lemma list_of_strip (s : string) :
  String.list_ascii_of_string (strip s) =
  reverse (drop_spaces (reverse (drop_spaces (String.list_ascii_of_string s)))).
Proof.
  unfold strip, rstrip. by rewrite list_of_rev, list_of_lstrip, list_of_rev, list_of_lstrip.
Qed.

Lemma list_of_upper (s : string) :
  String.list_ascii_of_string (upper s) = upper_char <$> String.list_ascii_of_string s.
Proof. induction s as [|c s IH]; simpl; [done|]. by rewrite IH. Qed.

Lemma drop_spaces_length (l : list ascii) : (length (drop_spaces l) ≤ length l)%nat.
Proof. induction l as [|c l IH]; simpl; [done|]. destruct (isspace c); simpl; lia. Qed.

Lemma drop_spaces_idemp (l : list ascii) : drop_spaces (drop_spaces l) = drop_spaces l.
Proof.
  induction l as [|c l IH]; simpl; [done|].
  destruct (isspace c) eqn:Hc; [done|]. simpl. by rewrite Hc.
Qed.

Lemma drop_spaces_snoc (l : list ascii) (c : ascii) :
  isspace c = false → ∃ l', drop_spaces (l ++ [c]) = l' ++ [c].
Proof.
  intros Hc. induction l as [|x l [l' IH]]; simpl.
  - exists []. by rewrite Hc.
  - destruct (isspace x); [by exists l'|]. by exists (x :: l).
Qed.

Lemma drop_spaces_fixed (l : list ascii) :
  drop_spaces l = l → l = [] ∨ ∃ c l', l = c :: l' ∧ isspace c = false.
Proof.
  destruct l as [|c l]; [by left|]. simpl. destruct (isspace c) eqn:Hc.
  - intros Heq. pose proof (drop_spaces_length l) as Hlen.
    rewrite Heq in Hlen. simpl in Hlen. lia.
  - intros _. right. by exists c, l.
Qed.

Lemma drop_spaces_ends (m : list ascii) :
  drop_spaces m = m →
  drop_spaces (reverse (drop_spaces (reverse m))) = reverse (drop_spaces (reverse m)).
Proof.
  intros [->|(c & m' & -> & Hc)]%drop_spaces_fixed; [done|].
  rewrite reverse_cons. destruct (drop_spaces_snoc (reverse m') c Hc) as [l' ->].
  rewrite reverse_snoc. simpl. by rewrite Hc.
Qed.

Lemma drop_spaces_fmap_upper (l : list ascii) :
  drop_spaces (upper_char <$> l) = upper_char <$> drop_spaces l.
Proof.
  induction l as [|c l IH]; simpl; [done|].
  rewrite isspace_upper_char. by destruct (isspace c).
Qed.

Lemma strip_idemp (s : string) : strip (strip s) = strip s.
Proof.
  apply list_of_string_inj. rewrite (list_of_strip (strip s)), list_of_strip.
  rewrite drop_spaces_ends by apply drop_spaces_idemp.
  rewrite reverse_involutive. apply drop_spaces_ends, drop_spaces_idemp.
Qed.

Lemma strip_upper (s : string) : strip (upper s) = upper (strip s).
Proof.
  apply list_of_string_inj.
  rewrite list_of_strip, !list_of_upper, list_of_strip.
  by rewrite drop_spaces_fmap_upper, <- fmap_reverse, drop_spaces_fmap_upper, <- fmap_reverse.
Qed.

Lemma elem_of_side_events (e : event) (date : Z) (act : action)
    (tickers names : option string) :
  e ∈ side_events date act tickers names →
  ev_date e = date ∧ ev_action e = act ∧
  (∃ x, ev_ticker e = upper (strip x)) ∧ (∃ y, ev_name e = strip y).
Proof.
  unfold side_events, side_pairs. destruct tickers as [ts|], names as [ns|];
    try by intros ?%elem_of_nil.
  intros ([t n] & -> & Hin)%list_elem_of_fmap. simpl.
  pose proof (elem_of_zip_l _ _ _ _ Hin) as (x & -> & _)%list_elem_of_fmap.
  pose proof (elem_of_zip_r _ _ _ _ Hin) as (y & -> & _)%list_elem_of_fmap.
  repeat split; by eexists.
Qed.

(** X4.  Every event of the parsed change log carries a normalised ticker
    (no lower-case letter, no white space at either end), a name without
    white space at either end, and the date of a row of the change table. *)
Theorem parsed_events_normalised (current_table : list (string * string))
    (changes_table : list change_row) (parsed : parse_state) (e : event) :
  parse_tables current_table changes_table = Ok parsed →
  e ∈ change_log parsed →
  upper (ev_ticker e) = ev_ticker e ∧
  strip (ev_ticker e) = ev_ticker e ∧
  strip (ev_name e) = ev_name e ∧
  ∃ row, row ∈ changes_table ∧ row_date row = Some (ev_date e).
Proof.
  unfold parse_tables. rewrite parse_changes_closed.
  destruct (forallb row_wf changes_table); [|done]. intros [= <-]. simpl.
  intros (row & He & Hrow)%list_elem_of_bind.
  unfold row_events in He. destruct (row_date row) as [date|] eqn:Hdate;
    [|by apply elem_of_nil in He].
  assert (ev_date e = date ∧ (∃ x, ev_ticker e = upper (strip x)) ∧
          (∃ y, ev_name e = strip y)) as (Hd & [x Hx] & [y Hy]).
  { apply elem_of_app in He as [He|He]; apply elem_of_side_events in He;
      by destruct He as (? & _ & ? & ?). }
  rewrite Hx, Hy. split; [apply upper_idemp|].
  split; [by rewrite strip_upper, strip_idemp|].
  split; [apply strip_idemp|]. exists row. by rewrite Hd.
Qed.

Lemma parsed_events_normalised_witness :
  upper "BBB" = "BBB" ∧ strip "BBB" = "BBB" ∧ strip "Beta" = "Beta" ∧
  ∃ row, row ∈ [row_add (datetime 2023 6 1) "aaa, bbb ,ccc" " Alpha, Beta "] ∧
         row_date row = Some (datetime 2023 6 1).
Proof.
  apply (parsed_events_normalised [] [row_add (datetime 2023 6 1) "aaa, bbb ,ccc" " Alpha, Beta "]
           (ParseState [Event (datetime 2023 6 1) "AAA" ADD "Alpha";
                        Event (datetime 2023 6 1) "BBB" ADD "Beta"]
              (<["BBB" := "Beta"]> (<["AAA" := "Alpha"]> ∅)))
           (Event (datetime 2023 6 1) "BBB" ADD "Beta")).
  - vm_compute. reflexivity.
  - apply list_elem_of_further, list_elem_of_here.
Defined.

(** ** The tickers of a snapshot *)




Lemma StronglySorted_NoDup_strict {A} (R : relation A) (l : list A) :
  StronglySorted R l → NoDup l → StronglySorted (λ a b, R a b ∧ a ≠ b) l.
Proof.
  induction 1 as [|x l Hs IH Hall]; intros Hnd; constructor.
  - apply IH. by apply NoDup_cons in Hnd as [_ ?].
  - apply NoDup_cons in Hnd as [Hx _]. rewrite Forall_forall in Hall |- *.
    intros y Hy. split; [by apply Hall|]. by intros ->.
Qed.

(** X6.  The ticker list of every snapshot is strictly ascending in the
    order of strings: sorted, and without a repeated ticker. *)
Theorem snapshot_tickers_strictly_sorted (current_table : list (string * string))
    (changes_table : list change_row) (start_date end_date : Z)
    (r : build_result) (s : snapshot) :
  build_sp500_history elements current_table changes_table start_date end_date = Ok r →
  s ∈ weekly_snapshots r →
  StronglySorted (λ a b, String.le a b ∧ a ≠ b) (tickers s) ∧ NoDup (tickers s).
Proof.
  intros Hb Hs.
  destruct (parse_tables current_table changes_table) as [parsed|] eqn:Hp;
    [|by unfold build_sp500_history in Hb; rewrite Hp in Hb].
  destruct (build_snapshot_elem elements current_table changes_table start_date end_date
              parsed r s Hp Hb Hs) as [_ Heq].
  rewrite Heq. simpl.
  assert (NoDup (sorted (elements (undo_all
            (newer (week_start s) (sort_reverse (change_log parsed)))
            (current_sp500 current_table))))) as Hnd.
  { rewrite sorted_perm. apply NoDup_elements. }
  split; [|done]. apply StronglySorted_NoDup_strict; [apply sorted_sorted|done].
Qed.

Lemma snapshot_tickers_strictly_sorted_witness :
  StronglySorted (λ a b, String.le a b ∧ a ≠ b) ["A"; "B"; "C"] ∧ NoDup ["A"; "B"; "C"].
Proof.
  apply (snapshot_tickers_strictly_sorted
           [("C", "Gamma"); ("A", "Alpha"); ("B", "Beta"); ("A", "Alpha")] changes_add_D
           (datetime 2023 5 1) (datetime 2023 5 1)
           (BuildResult [Snapshot (datetime 2023 5 1) ["A"; "B"; "C"] ["Alpha"; "Beta"; "Gamma"]]
              (ReplayState [] (list_to_set ["C"; "A"; "B"; "A"])
                 [Event (datetime 2023 6 1) "D" ADD "Delta"]))
           (Snapshot (datetime 2023 5 1) ["A"; "B"; "C"] ["Alpha"; "Beta"; "Gamma"])).
  - vm_compute. reflexivity.
  - apply list_elem_of_here.
Defined.

Lemma build_parsed (iter : gset string → list string)
    (current_table : list (string * string)) (changes_table : list change_row)
    (start_date end_date : Z) (r : build_result) :
  build_sp500_history iter current_table changes_table start_date end_date = Ok r →
  ∃ parsed, parse_tables current_table changes_table = Ok parsed.
Proof.
  unfold build_sp500_history.
  destruct (parse_tables current_table changes_table) as [parsed|]; [by exists parsed|done].
Qed.

(** The members of a snapshot, read off its ticker list. *)
Lemma snapshot_members (current_table : list (string * string))
    (changes_table : list change_row) (start_date end_date : Z)
    (parsed : parse_state) (r : build_result) (s : snapshot) :
  parse_tables current_table changes_table = Ok parsed →
  build_sp500_history elements current_table changes_table start_date end_date = Ok r →
  s ∈ weekly_snapshots r →
  list_to_set (tickers s) =
  undo_all (newer (week_start s) (sort_reverse (change_log parsed)))
    (current_sp500 current_table).
Proof.
  intros Hp Hb Hs.
  destruct (build_snapshot_elem elements _ _ _ _ parsed r s Hp Hb Hs) as [_ Heq].
  rewrite Heq at 1. simpl. apply list_to_set_sorted_elements.
Qed.



Lemma elem_of_newer_sorted (e : event) (d : Z) (log : list event) :
  e ∈ newer d (sort_reverse log) ↔ d < ev_date e ∧ e ∈ log.
Proof. unfold newer. by rewrite list_elem_of_filter, sort_reverse_perm. Qed.

Lemma last_filter_elem_of {A} (P : A → Prop) `{∀ x, Decision (P x)} (l : list A) (x : A) :
  last (filter P l) = Some x → P x ∧ x ∈ l.
Proof. intros Hlast%last_Some_elem_of. by apply list_elem_of_filter in Hlast. Qed.

(** X8.  A ticker of a snapshot is a current member or the ticker of a
    REMOVE event dated after the snapshot; and a current member stays in
    every snapshot that no ADD event naming it is dated after. *)
Theorem snapshot_provenance (current_table : list (string * string))
    (changes_table : list change_row) (start_date end_date : Z)
    (parsed : parse_state) (r : build_result) (s : snapshot) (t : string) :
  parse_tables current_table changes_table = Ok parsed →
  build_sp500_history elements current_table changes_table start_date end_date = Ok r →
  s ∈ weekly_snapshots r →
  (t ∈ tickers s →
   t ∈ current_sp500 current_table ∨
   ∃ e, e ∈ change_log parsed ∧ ev_ticker e = t ∧ ev_action e = REMOVE ∧
        week_start s < ev_date e) ∧
  (t ∈ current_sp500 current_table →
   (∀ e, e ∈ change_log parsed → ev_ticker e = t → ev_action e = ADD →
         ev_date e ≤ week_start s) →
   t ∈ tickers s).
Proof.
  intros Hp Hb Hs.
  rewrite <- (elem_of_list_to_set (C:=gset string)),
    (snapshot_members _ _ _ _ parsed r s Hp Hb Hs).
  rewrite undo_all_decided.
  destruct (last _) as [e|] eqn:Hlast.
  - apply last_filter_elem_of in Hlast as [Ht [Hd He]%elem_of_newer_sorted].
    split.
    + intros Hrem. right. by exists e.
    + intros _ Hadd. destruct (ev_action e) eqn:Hact; [|done].
      specialize (Hadd e He Ht Hact). lia.
  - split; [by left|done].
Qed.

Lemma snapshot_provenance_witness :
  ("D" ∈ ["A"; "B"; "D"] →
   "D" ∈ current_sp500 table_ABC ∨
   ∃ e, e ∈ [Event (datetime 2023 6 1) "C" ADD "Gamma";
             Event (datetime 2023 6 8) "D" REMOVE "Delta"] ∧
        ev_ticker e = "D" ∧ ev_action e = REMOVE ∧ datetime 2023 5 1 < ev_date e) ∧
  ("D" ∈ current_sp500 table_ABC →
   (∀ e, e ∈ [Event (datetime 2023 6 1) "C" ADD "Gamma";
              Event (datetime 2023 6 8) "D" REMOVE "Delta"] →
         ev_ticker e = "D" → ev_action e = ADD → ev_date e ≤ datetime 2023 5 1) →
   "D" ∈ ["A"; "B"; "D"]).
Proof.
  refine (snapshot_provenance table_ABC
           [row_add (datetime 2023 6 1) "C" "Gamma"; row_remove (datetime 2023 6 8) "D" "Delta"]
           (datetime 2023 5 1) (datetime 2023 5 1)
           (ParseState [Event (datetime 2023 6 1) "C" ADD "Gamma";
                        Event (datetime 2023 6 8) "D" REMOVE "Delta"]
              (<["D" := "Delta"]> (<["C" := "Gamma"]> (dict_of_pairs table_ABC))))
           (BuildResult
              [Snapshot (datetime 2023 5 1) ["A"; "B"; "D"] ["Alpha"; "Beta"; "Delta"]]
              (ReplayState [] (list_to_set ["A"; "B"; "D"])
                 [Event (datetime 2023 6 8) "D" REMOVE "Delta";
                  Event (datetime 2023 6 1) "C" ADD "Gamma"]))
           (Snapshot (datetime 2023 5 1) ["A"; "B"; "D"] ["Alpha"; "Beta"; "Delta"])
           "D" _ _ _).
  - vm_compute. reflexivity.
  - vm_compute. reflexivity.
  - apply list_elem_of_here.
Defined.

(** X9.  A snapshot dated on or after every event of the change log lists
    the current membership as it is. *)
Theorem snapshot_after_all_events (current_table : list (string * string))
    (changes_table : list change_row) (start_date end_date : Z)
    (parsed : parse_state) (r : build_result) (s : snapshot) :
  parse_tables current_table changes_table = Ok parsed →
  build_sp500_history elements current_table changes_table start_date end_date = Ok r →
  s ∈ weekly_snapshots r →
  (∀ e, e ∈ change_log parsed → ev_date e ≤ week_start s) →
  tickers s = sorted (elements (current_sp500 current_table)).
Proof.
  intros Hp Hb Hs Hall.
  destruct (build_snapshot_elem elements _ _ _ _ parsed r s Hp Hb Hs) as [_ Heq].
  rewrite Heq at 1. simpl.
  destruct (newer_nil_of_le (week_start s) (sort_reverse (change_log parsed))) as [-> _];
    [|done].
  apply Forall_forall. intros e He. apply Hall. by rewrite sort_reverse_perm in He.
Qed.

Lemma snapshot_after_all_events_witness :
  ["A"; "B"; "C"] = sorted (elements (current_sp500 table_ABC)).
Proof.
  refine (snapshot_after_all_events table_ABC changes_add_D
            (datetime 2023 7 3) (datetime 2023 7 3)
            (ParseState [Event (datetime 2023 6 1) "D" ADD "Delta"]
               (<["D" := "Delta"]> (dict_of_pairs table_ABC)))
            (BuildResult
               [Snapshot (datetime 2023 7 3) ["A"; "B"; "C"] ["Alpha"; "Beta"; "Gamma"]]
               (ReplayState [Event (datetime 2023 6 1) "D" ADD "Delta"]
                  (current_sp500 table_ABC) []))
            (Snapshot (datetime 2023 7 3) ["A"; "B"; "C"] ["Alpha"; "Beta"; "Gamma"])
            _ _ _ _).
  - vm_compute. reflexivity.
  - vm_compute. reflexivity.
  - apply list_elem_of_here.
  - intros e ->%list_elem_of_singleton. vm_compute. discriminate.
Defined.





(** ** The date range of the script *)

Lemma main_snapshot_week_dates (current_table : list (string * string))
    (changes_table : list change_row) (r : build_result) :
  main current_table changes_table = Ok r →
  week_start <$> weekly_snapshots r = week_dates start_date end_date.
Proof.
  intros Hb. destruct (build_parsed _ _ _ _ _ _ Hb) as [parsed Hp].
  destruct (build_spec elements current_table changes_table start_date end_date parsed Hp)
    as (r' & Hb' & Hsnaps & _).
  unfold main in Hb. rewrite Hb in Hb'. injection Hb' as <-.
  rewrite Hsnaps, <- list_fmap_compose.
  rewrite <- (list_fmap_id (week_dates _ _)) at 2. by apply list_fmap_ext.
Qed.

Lemma head_fmap {A B} (f : A → B) (l : list A) : head (f <$> l) = f <$> head l.
Proof. by destruct l. Qed.

Lemma weekday_week_dates (d : Z) :
  d ∈ week_dates start_date end_date →
  weekday d = 0 ∧ datetime 2022 1 3 ≤ d ≤ datetime 2025 1 6.
Proof.
  intros [Hrange Hmod]%elem_of_week_dates. split; [|done].
  apply Z.mod_divide in Hmod as [q Hq]; [|done].
  unfold weekday. replace (d + 6) with ((105609 - q) * 7).
  - apply Z.mod_mul. done.
  - change end_date with 739257 in Hq. lia.
Qed.

(** X11.  Whatever the tables, the script itself produces 158 snapshots,
    from 2025-01-06 back to 2022-01-03 included, and every snapshot date is
    a Monday of that range. *)
Theorem main_timeline (current_table : list (string * string))
    (changes_table : list change_row) (r : build_result) :
  main current_table changes_table = Ok r →
  length (weekly_snapshots r) = 158%nat ∧
  week_start <$> head (weekly_snapshots r) = Some (datetime 2025 1 6) ∧
  week_start <$> last (weekly_snapshots r) = Some (datetime 2022 1 3) ∧
  ∀ s, s ∈ weekly_snapshots r →
    weekday (week_start s) = 0 ∧ datetime 2022 1 3 ≤ week_start s ≤ datetime 2025 1 6.
Proof.
  intros Hb. pose proof (main_snapshot_week_dates _ _ _ Hb) as Hdates.
  split; [|split; [|split]].
  - rewrite <- (length_fmap week_start), Hdates. by vm_compute.
  - rewrite <- head_fmap, Hdates. by vm_compute.
  - rewrite <- fmap_last, Hdates. by vm_compute.
  - intros s Hs. apply weekday_week_dates. rewrite <- Hdates.
    apply list_elem_of_fmap. by exists s.
Qed.

Lemma main_timeline_witness :
  ∃ r, main table_ABC changes_add_D = Ok r ∧
    length (weekly_snapshots r) = 158%nat ∧
    week_start <$> head (weekly_snapshots r) = Some (datetime 2025 1 6) ∧
    week_start <$> last (weekly_snapshots r) = Some (datetime 2022 1 3) ∧
    ∀ s, s ∈ weekly_snapshots r →
      weekday (week_start s) = 0 ∧ datetime 2022 1 3 ≤ week_start s ≤ datetime 2025 1 6.
Proof.
  destruct (main table_ABC changes_add_D) as [r|] eqn:Hb; [|by vm_compute in Hb].
  exists r. split; [done|]. exact (main_timeline table_ABC changes_add_D r Hb).
Defined.

(** X12.  The scrape is configured for 2021-01-01 to 2024-01-01, the
    timeline starts on 2022-01-03: no day of the scrape's range before
    2022-01-03 is the date of a snapshot, while the end of the range,
    2024-01-01, is one. *)
Theorem scrape_range_and_timeline (current_table : list (string * string))
    (changes_table : list change_row) (r : build_result) :
  main current_table changes_table = Ok r →
  (∀ s, s ∈ weekly_snapshots r → HISTORICAL_START + 367 ≤ week_start s) ∧
  (∃ s, s ∈ weekly_snapshots r ∧ week_start s = HISTORICAL_END).
Proof.
  intros Hb. pose proof (main_snapshot_week_dates _ _ _ Hb) as Hdates. split.
  - intros s Hs. assert (week_start s ∈ week_dates start_date end_date) as Hin.
    { rewrite <- Hdates. apply list_elem_of_fmap. by exists s. }
    apply weekday_week_dates in Hin as [_ [Hlo _]].
    change (HISTORICAL_START + 367) with (datetime 2022 1 3). done.
  - assert (HISTORICAL_END ∈ week_start <$> weekly_snapshots r) as Hin.
    { rewrite Hdates. apply elem_of_week_dates. by vm_compute. }
    apply list_elem_of_fmap in Hin as (s & Heq & Hs). by exists s.
Qed.

Lemma scrape_range_and_timeline_witness :
  ∃ r, main table_ABC changes_add_D = Ok r ∧
    (∀ s, s ∈ weekly_snapshots r → HISTORICAL_START + 367 ≤ week_start s) ∧
    (∃ s, s ∈ weekly_snapshots r ∧ week_start s = HISTORICAL_END).
Proof.
  destruct (main table_ABC changes_add_D) as [r|] eqn:Hb; [|by vm_compute in Hb].
  exists r. split; [done|]. exact (scrape_range_and_timeline table_ABC changes_add_D r Hb).
Defined.

(** ** The names of the current table *)

(** X13.  The name mapping built from the current table has exactly the
    current members as keys, and gives a symbol listed several times the
    name of its last row. *)
Theorem current_table_names (current_table : list (string * string)) (t : string) :
  dom (dict_of_pairs current_table) = current_sp500 current_table ∧
  dict_of_pairs current_table !! t =
    snd <$> last (filter (λ kv, kv.1 = t) current_table).
Proof.
  unfold dict_of_pairs, current_sp500.
  induction current_table as [|kv rows [IHdom IH]] using rev_ind.
  - split; [|done]. simpl. apply dom_empty_L.
  - rewrite foldl_app, fmap_app, list_to_set_app_L. simpl. split.
    + rewrite dom_insert_L, IHdom, union_empty_r_L. apply (comm_L (∪)).
    + rewrite filter_app, filter_cons, filter_nil.
      destruct (decide (kv.1 = t)) as [<-|Hne].
      * by rewrite last_snoc, lookup_insert_eq.
      * by rewrite app_nil_r, lookup_insert_ne.
Qed.

(** ** An empty date range *)

(** X16.  When [end_date] lies before [start_date] the build still succeeds
    on a table that parses: it records no snapshot, pops no event and leaves
    the working set at the current membership. *)
Theorem empty_range_build (iter : gset string → list string)
    (current_table : list (string * string)) (changes_table : list change_row)
    (start_date end_date : Z) (parsed : parse_state) :
  parse_tables current_table changes_table = Ok parsed →
  end_date < start_date →
  build_sp500_history iter current_table changes_table start_date end_date =
  Ok (BuildResult []
        (ReplayState (sort_reverse (change_log parsed)) (current_sp500 current_table) [])).
Proof.
  intros Hp Hlt. rewrite (build_ok _ _ _ _ _ parsed Hp), weekly_loop_eq.
  by rewrite decide_False by lia.
Qed.

Lemma empty_range_build_witness :
  build_sp500_history elements table_ABC changes_add_D (datetime 2023 7 3) (datetime 2023 5 1) =
  Ok (BuildResult []
        (ReplayState [Event (datetime 2023 6 1) "D" ADD "Delta"] (current_sp500 table_ABC) [])).
Proof.
  refine (empty_range_build elements table_ABC changes_add_D
            (datetime 2023 7 3) (datetime 2023 5 1)
            (ParseState [Event (datetime 2023 6 1) "D" ADD "Delta"]
               (<["D" := "Delta"]> (dict_of_pairs table_ABC))) _ _).
  - vm_compute. reflexivity.
  - vm_compute. reflexivity.
Defined.

(** ** get_trading_dates *)

Lemma foldl_min_spec (d : Z) (l : list Z) :
  foldl Z.min d l ∈ d :: l ∧ ∀ x, x ∈ d :: l → foldl Z.min d l ≤ x.
Proof.
  revert d. induction l as [|y l IH]; intros d; simpl.
  - split; [apply list_elem_of_here|]. intros x ->%list_elem_of_singleton. lia.
  - destruct (IH (Z.min d y)) as [Hin Hle]. split.
    + apply elem_of_cons in Hin as [Heq|Hin].
      * rewrite Heq. destruct (Z.min_spec d y) as [[_ ->]|[_ ->]].
        -- apply list_elem_of_here.
        -- apply list_elem_of_further, list_elem_of_here.
      * by do 2 apply list_elem_of_further.
    + intros x Hx. apply elem_of_cons in Hx as [->|Hx].
      * etrans; [apply Hle, list_elem_of_here|]. lia.
      * apply elem_of_cons in Hx as [->|Hx].
        -- etrans; [apply Hle, list_elem_of_here|]. lia.
        -- by apply Hle, list_elem_of_further.
Qed.

Lemma foldl_max_spec (d : Z) (l : list Z) :
  foldl Z.max d l ∈ d :: l ∧ ∀ x, x ∈ d :: l → x ≤ foldl Z.max d l.
Proof.
  revert d. induction l as [|y l IH]; intros d; simpl.
  - split; [apply list_elem_of_here|]. intros x ->%list_elem_of_singleton. lia.
  - destruct (IH (Z.max d y)) as [Hin Hle]. split.
    + apply elem_of_cons in Hin as [Heq|Hin].
      * rewrite Heq. destruct (Z.max_spec d y) as [[_ ->]|[_ ->]].
        -- apply list_elem_of_further, list_elem_of_here.
        -- apply list_elem_of_here.
      * by do 2 apply list_elem_of_further.
    + intros x Hx. apply elem_of_cons in Hx as [->|Hx].
      * etrans; [|apply Hle, list_elem_of_here]. lia.
      * apply elem_of_cons in Hx as [->|Hx].
        -- etrans; [|apply Hle, list_elem_of_here]. lia.
        -- by apply Hle, list_elem_of_further.
Qed.

Lemma index_min_spec (l : list Z) :
  l ≠ [] → ∃ m, index_min l = Some m ∧ m ∈ l ∧ ∀ x, x ∈ l → m ≤ x.
Proof.
  destruct l as [|d l]; [done|]. intros _. eexists. split; [done|]. apply foldl_min_spec.
Qed.

Lemma index_max_spec (l : list Z) :
  l ≠ [] → ∃ m, index_max l = Some m ∧ m ∈ l ∧ ∀ x, x ∈ l → x ≤ m.
Proof.
  destruct l as [|d l]; [done|]. intros _. eexists. split; [done|]. apply foldl_max_spec.
Qed.

Lemma elem_of_date_range (d week_start week_end : Z) :
  d ∈ date_range week_start week_end ↔ week_start ≤ d ≤ week_end.
Proof. unfold date_range. rewrite elem_of_seqZ. lia. Qed.

Lemma date_range_bounds (week_start week_end : Z) :
  week_start ≤ week_end →
  index_min (date_range week_start week_end) = Some week_start ∧
  index_max (date_range week_start week_end) = Some week_end.
Proof.
  intros Hle.
  assert (date_range week_start week_end ≠ []) as Hne.
  { intros Hnil. assert (week_start ∈ date_range week_start week_end) as Hin
      by (apply elem_of_date_range; lia).
    rewrite Hnil in Hin. by apply elem_of_nil in Hin. }
  destruct (index_min_spec _ Hne) as (lo & -> & Hlo & Hlo').
  destruct (index_max_spec _ Hne) as (hi & -> & Hhi & Hhi').
  apply elem_of_date_range in Hlo, Hhi.
  assert (lo ≤ week_start) by (apply Hlo', elem_of_date_range; lia).
  assert (week_end ≤ hi) by (apply Hhi', elem_of_date_range; lia).
  split; f_equal; lia.
Qed.

(** The two outcomes of [get_trading_dates] on a week. *)
Lemma get_trading_dates_cases (download : option Z → option Z → list Z)
    (week_start week_end : Z) :
  week_start ≤ week_end →
  let index := download (Some (week_start - 3)) (Some (week_end + 3)) in
  (get_trading_dates download week_start week_end = (None, None) ∧
   ∀ d, d ∈ index → ¬ (week_start ≤ d ≤ week_end)) ∨
  (∃ buy_date sell_date,
     get_trading_dates download week_start week_end = (Some buy_date, Some sell_date) ∧
     buy_date ∈ index ∧ sell_date ∈ index ∧
     week_start ≤ buy_date ∧ buy_date ≤ sell_date ∧ sell_date ≤ week_end ∧
     ∀ d, d ∈ index → week_start ≤ d ≤ week_end → buy_date ≤ d ≤ sell_date).
Proof.
  intros Hle index. unfold get_trading_dates.
  destruct (date_range_bounds week_start week_end Hle) as [-> ->]. simpl. fold index.
  destruct (filter (λ d, d ∈ date_range week_start week_end) index) as [|d0 days] eqn:Hdays.
  - left. split; [done|]. intros d Hd Hin.
    assert (d ∈ filter (λ d, d ∈ date_range week_start week_end) index) as Hf
      by (by apply list_elem_of_filter; split; [apply elem_of_date_range|]).
    rewrite Hdays in Hf. by apply elem_of_nil in Hf.
  - right.
    destruct (index_min_spec (d0 :: days)) as (b & Hb & Hbin & Hble); [done|].
    destruct (index_max_spec (d0 :: days)) as (s & Hs & Hsin & Hsle); [done|].
    exists b, s. rewrite Hb, Hs. split; [done|].
    pose proof (Hble s Hsin) as Hbs.
    rewrite <- Hdays in Hbin, Hsin.
    apply list_elem_of_filter in Hbin as [Hb1%elem_of_date_range Hb2].
    apply list_elem_of_filter in Hsin as [Hs1%elem_of_date_range Hs2].
    repeat split; try done; try lia.
    + apply Hble. rewrite <- Hdays. by apply list_elem_of_filter; split;
        [apply elem_of_date_range|].
    + apply Hsle. rewrite <- Hdays. by apply list_elem_of_filter; split;
        [apply elem_of_date_range|].
Qed.

(** X14.  For a week [week_start <= week_end] the provider is asked for the
    window from three days before to three days after the week, and the
    result is either no date at all, when the returned index has no day of
    the week, or the earliest and the latest day of the index that lie in
    the week: two days of the index, inside the week, in that order. *)
Theorem get_trading_dates_spec (download : option Z → option Z → list Z)
    (week_start week_end : Z) :
  week_start ≤ week_end →
  let index := download (Some (week_start - 3)) (Some (week_end + 3)) in
  (get_trading_dates download week_start week_end = (None, None) ∧
   ∀ d, d ∈ index → ¬ (week_start ≤ d ≤ week_end)) ∨
  (∃ buy_date sell_date,
     get_trading_dates download week_start week_end = (Some buy_date, Some sell_date) ∧
     buy_date ∈ index ∧ sell_date ∈ index ∧
     week_start ≤ buy_date ∧ buy_date ≤ sell_date ∧ sell_date ≤ week_end ∧
     ∀ d, d ∈ index → week_start ≤ d ≤ week_end → buy_date ≤ d ≤ sell_date).
Proof. apply get_trading_dates_cases. Qed.

(** X15.  [run_backtest] goes on with a week exactly when the index holds
    two different days of that week; a week with a single trading day is
    skipped like a week with none. *)
Theorem week_skipped_iff (download : option Z → option Z → list Z)
    (week_start week_end : Z) :
  week_start ≤ week_end →
  let index := download (Some (week_start - 3)) (Some (week_end + 3)) in
  week_skipped (get_trading_dates download week_start week_end) = false ↔
  ∃ d1 d2, d1 ∈ index ∧ d2 ∈ index ∧ week_start ≤ d1 ∧ d1 < d2 ∧ d2 ≤ week_end.
Proof.
  intros Hle index.
  destruct (get_trading_dates_cases download week_start week_end Hle)
    as [[-> Hnone]|(b & s & -> & Hb & Hs & Hlo & Hbs & Hhi & Hall)]; simpl.
  - split; [done|]. intros (d1 & d2 & Hd1 & _ & ? & ? & ?).
    exfalso. apply (Hnone d1 Hd1). lia.
  - rewrite bool_decide_eq_false. split.
    + intros Hne. exists b, s. repeat split; try done. lia.
    + intros (d1 & d2 & Hd1 & Hd2 & ? & ? & ?) ->.
      pose proof (Hall d1 Hd1). pose proof (Hall d2 Hd2). lia.
Qed.

Lemma get_trading_dates_spec_witness :
  let index := sample_download (Some (datetime 2023 7 3 - 3)) (Some (datetime 2023 7 9 + 3)) in
  (get_trading_dates sample_download (datetime 2023 7 3) (datetime 2023 7 9) = (None, None) ∧
   ∀ d, d ∈ index → ¬ (datetime 2023 7 3 ≤ d ≤ datetime 2023 7 9)) ∨
  (∃ buy_date sell_date,
     get_trading_dates sample_download (datetime 2023 7 3) (datetime 2023 7 9)
       = (Some buy_date, Some sell_date) ∧
     buy_date ∈ index ∧ sell_date ∈ index ∧
     datetime 2023 7 3 ≤ buy_date ∧ buy_date ≤ sell_date ∧ sell_date ≤ datetime 2023 7 9 ∧
     ∀ d, d ∈ index → datetime 2023 7 3 ≤ d ≤ datetime 2023 7 9 → buy_date ≤ d ≤ sell_date).
Proof.
  apply (get_trading_dates_spec sample_download (datetime 2023 7 3) (datetime 2023 7 9)).
  vm_compute. discriminate.
Defined.

Example get_trading_dates_sample :
  get_trading_dates sample_download (datetime 2023 7 3) (datetime 2023 7 9) =
  (Some (datetime 2023 7 3), Some (datetime 2023 7 7)).
Proof. by vm_compute. Qed.

Lemma week_skipped_iff_witness :
  week_skipped (get_trading_dates sample_download (datetime 2023 7 3) (datetime 2023 7 9))
    = false ↔
  ∃ d1 d2, d1 ∈ sample_download (Some (datetime 2023 7 3 - 3)) (Some (datetime 2023 7 9 + 3)) ∧
           d2 ∈ sample_download (Some (datetime 2023 7 3 - 3)) (Some (datetime 2023 7 9 + 3)) ∧
           datetime 2023 7 3 ≤ d1 ∧ d1 < d2 ∧ d2 ≤ datetime 2023 7 9.
Proof.
  apply (week_skipped_iff sample_download (datetime 2023 7 3) (datetime 2023 7 9)).
  vm_compute. discriminate.
Defined.

(** ** Names across snapshots *)

(** X17.  Names are not point-in-time: within one build a ticker carries the
    same name in every snapshot that lists it. *)
Theorem snapshot_names_constant (iter : gset string → list string)
    (current_table : list (string * string)) (changes_table : list change_row)
    (start_date end_date : Z) (r : build_result)
    (s1 s2 : snapshot) (i j : nat) (t : string) :
  build_sp500_history iter current_table changes_table start_date end_date = Ok r →
  s1 ∈ weekly_snapshots r → s2 ∈ weekly_snapshots r →
  tickers s1 !! i = Some t → tickers s2 !! j = Some t →
  is_Some (names s1 !! i) ∧ names s1 !! i = names s2 !! j.
Proof.
  intros Hb Hs1 Hs2 Hi Hj. destruct (build_parsed _ _ _ _ _ _ Hb) as [parsed Hp].
  destruct (build_snapshot_elem iter _ _ _ _ parsed r s1 Hp Hb Hs1) as [_ Heq1].
  destruct (build_snapshot_elem iter _ _ _ _ parsed r s2 Hp Hb Hs2) as [_ Heq2].
  rewrite Heq1 in Hi |- *. rewrite Heq2 in Hj |- *. simpl in *.
  rewrite !list_lookup_fmap, Hi, Hj. simpl. split; [by eexists|done].
Qed.

Lemma snapshot_names_constant_witness :
  is_Some (["Alpha"; "Beta"; "Gamma"; "Delta"] !! 2%nat) ∧
  ["Alpha"; "Beta"; "Gamma"; "Delta"] !! 2%nat = ["Alpha"; "Beta"; "Gamma"] !! 2%nat.
Proof.
  refine (snapshot_names_constant elements table_ABCD changes_add_D
            (datetime 2023 5 29) (datetime 2023 6 5)
            (BuildResult
               [Snapshot (datetime 2023 6 5) ["A"; "B"; "C"; "D"]
                  ["Alpha"; "Beta"; "Gamma"; "Delta"];
                Snapshot (datetime 2023 5 29) ["A"; "B"; "C"] ["Alpha"; "Beta"; "Gamma"]]
               (ReplayState [] (list_to_set ["A"; "B"; "C"])
                  [Event (datetime 2023 6 1) "D" ADD "Delta"]))
            (Snapshot (datetime 2023 6 5) ["A"; "B"; "C"; "D"]
               ["Alpha"; "Beta"; "Gamma"; "Delta"])
            (Snapshot (datetime 2023 5 29) ["A"; "B"; "C"] ["Alpha"; "Beta"; "Gamma"])
            2%nat 2%nat "C" _ _ _ _ _).
  - vm_compute. reflexivity.
  - apply list_elem_of_here.
  - apply list_elem_of_further, list_elem_of_here.
  - reflexivity.
  - reflexivity.
Defined.
